(** * PradoWrites: the pure core of the blog and of its Bitcoin dashboard

    A shallow embedding of the six pure functions of [src/App.jsx]
    ([searchPosts], [Markdown], [mergeSeries], [compute10DayTicks],
    [computeMvrvDomain], [buildAlerts]) and the properties the
    specification states about them, followed by the code around them: the
    mock series, the Fear and Greed bar, the state of the dashboard and its
    refresh steps, the theme preference and the loading of a post's body.

    Modelling conventions.
    - A JavaScript number that the code computes with (MVRV values, the
      Fear and Greed index) is an IEEE 754 binary64 value: Rocq's primitive
      [float].  Epoch timestamps and lengths are integers: [Z] and [nat].
      Lists have no bound: the limit of [2 ^ 32 - 1] elements on an array is
      not modelled.
    - A value whose type the code inspects ([typeof x === 'number']) is a
      [value]; an argument the code guards against being absent
      ([arr?.length], [Array.isArray(arr)], [!q]) is an [option].
    - A string is a [string]: the bytes of its UTF-8 encoding, so that a
      literal of this file is the text it shows.  The line terminators are
      LF, CR, U+2028 and U+2029.  [String.prototype.toLowerCase] is a
      parameter, the class [Lowercase].
    - A plain object used as a dictionary (the content map) is a [gmap] of
      its own properties, strings, in front of the members it inherits from
      [Object.prototype].
    - A [while]/[for] loop is a fuelled fixpoint in the [outcome] monad,
      which also carries the [TypeError] JavaScript raises when a property
      of [undefined] is read or what is called is no function.
    - What the code reads from its surroundings is an argument: [Date.now()]
      and [new Date()] are [now] and [clock], the calls of [Math.random()]
      are a function [random] of the call's index, the answer of a request
      is the argument [r] of the step that handles it.
    - The state of a component is a record, and the state updates one
      handler makes are one step of it. *)

From Stdlib Require Import ZArith List String Ascii Floats Lia Sorted.
From stdpp Require Import gmap strings list.
Set Warnings "-inexact-float".

(** ** JavaScript values and outcomes *)

Inductive value : Type :=
| VUndefined
| VNull
| VBool (b : bool)
| VNum (x : float)
| VStr (s : string).

(** [typeof v === 'number'] *)
Definition is_number (v : value) : bool :=
  match v with VNum _ => true | _ => false end.

Inductive exn : Type := TypeError.

Inductive outcome (A : Type) : Type :=
| Returns (a : A)
| Throws (e : exn)
| OutOfFuel.
Arguments Returns {A} a.
Arguments Throws {A} e.
Arguments OutOfFuel {A}.

Definition bind {A B : Type} (c : outcome A) (k : A -> outcome B) : outcome B :=
  match c with
  | Returns a => k a
  | Throws e => Throws e
  | OutOfFuel => OutOfFuel
  end.

Notation "'let*' x ':=' c 'in' k" := (bind c (fun x => k))
  (at level 10, x name, c at level 100, k at level 200).

(** [arr[i]]: reading an index of an absent array raises, reading past the
    end of a present one yields [undefined]. *)
Definition at_index {A : Type} (arr : option (list A)) (i : nat) : outcome (option A) :=
  match arr with
  | None => Throws TypeError
  | Some l => Returns (l !! i)
  end.

(** [arr?.length || 0] *)
Definition length_or_0 {A : Type} (arr : option (list A)) : nat :=
  match arr with
  | Some l => length l
  | None => 0
  end.

(** ** The [Math] functions the dashboard uses, on binary64 *)

Module Math.

(** An integer of magnitude below 2^53 as a float (exact). *)
Definition of_Z (z : Z) : float :=
  if (z <? 0)%Z then (- PrimFloat.of_uint63 (Uint63.of_Z (- z)))%float
  else PrimFloat.of_uint63 (Uint63.of_Z z).

(** [Math.floor]: a finite float is [±m * 2^e]; with [e >= 0] it is an
    integer already, otherwise the signed mantissa is shifted right,
    which rounds towards minus infinity. *)
Definition floor (x : float) : float :=
  match Prim2SF x with
  | S754_finite s m e =>
      if (0 <=? e)%Z then x
      else of_Z (Z.shiftr (if s then Z.neg m else Z.pos m) (- e))
  | _ => x
  end.

(** [Math.ceil(x)] is [-Math.floor(-x)]. *)
Definition ceil (x : float) : float := (- floor (- x))%float.

(** [Math.max(a, b)]: NaN if either is NaN, and [+0] is larger than [-0]. *)
Definition max (a b : float) : float :=
  if PrimFloat.is_nan a || PrimFloat.is_nan b then nan
  else if (a <? b)%float then b
  else if (b <? a)%float then a
  else match PrimFloat.classify a with NZero => b | _ => a end.

End Math.

(** The global [isFinite] on a number. *)
Definition isFinite (x : float) : bool := PrimFloat.is_finite x.

(** ** Data model *)

(** A point of the price series, [{ t, price }]. *)
Record PricePoint : Type := { p_t : Z; p_price : value }.

(** A point of the MVRV series, [{ t, mvrv }]. *)
Record MvrvPoint : Type := { m_t : Z; m_mvrv : value }.

(** A point of the merged series, [{ t, price, mvrv }]; an absent field is
    [undefined]. *)
Record MergedPoint : Type := { t : Z; price : value; mvrv : value }.

Inductive Level : Type := MEDIUM | HIGH.

(** A template literal: its fixed text and its holes, [${x.toFixed(d)}] and
    [${x}]. *)
Inductive tpl : Type :=
| Lit (s : string)
| ToFixed (x : float) (digits : nat)
| Subst (x : float).

Record Alert : Type := { level : Level; alert_title : string; desc : list tpl }.

(** The part of the dashboard state [buildAlerts] reads:
    [{ mvrv: { current }, fngValue }]. *)
Record MvrvState : Type := { current : value }.
Record DashState : Type := { state_mvrv : option MvrvState; fngValue : value }.

(** ** Value Domain Calculator *)

(** One iteration of [for (const p of arr)]: the running [(mn, mx)]. *)
Definition domain_step (acc : float * float) (p : MvrvPoint) : float * float :=
  match m_mvrv p with
  | VNum v =>
      let mn := if (v <? fst acc)%float then v else fst acc in
      let mx := if (snd acc <? v)%float then v else snd acc in
      (mn, mx)
  | _ => acc
  end.

Definition computeMvrvDomain (arr : option (list MvrvPoint)) : float * float :=
  match arr with
  | None | Some [] => (0, 4)%float
  | Some l =>
      let (mn, mx) := fold_left domain_step l (infinity, neg_infinity) in
      if negb (isFinite mn) || negb (isFinite mx) then (0, 4)%float
      else
        let pad := Math.max 0.05 ((mx - mn) * 0.1)%float in
        (Math.max 0 (Math.floor ((mn - pad) * 10) / 10)%float,
         (Math.ceil ((mx + pad) * 10) / 10)%float)
  end.

(** ** Alert Rule Engine *)

Definition buildAlerts (state : option DashState) : list Alert :=
  let out := [] in
  let mv :=
    match state with
    | Some s =>
        match state_mvrv s with
        | Some m => if is_number (current m) then current m else VNull
        | None => VNull
        end
    | None => VNull
    end in
  let fg :=
    match state with
    | Some s => if is_number (fngValue s) then fngValue s else VNull
    | None => VNull
    end in
  let out :=
    match mv with
    | VNum mv =>
        if (3.0 <=? mv)%float then
          out ++ [{| level := HIGH; alert_title := "MVRV Overbought";
                     desc := [Lit "MVRV at "; ToFixed mv 2; Lit " (>= 3.0)."] |}]
        else if (2.5 <=? mv)%float then
          out ++ [{| level := MEDIUM; alert_title := "MVRV Elevated";
                     desc := [Lit "MVRV at "; ToFixed mv 2; Lit " (>= 2.5)."] |}]
        else out
    | _ => out
    end in
  let out :=
    match fg with
    | VNum fg =>
        if (70 <=? fg)%float then
          out ++ [{| level := MEDIUM; alert_title := "Extreme Greed";
                     desc := [Lit "Fear & Greed = "; Subst fg; Lit "."] |}]
        else out
    | _ => out
    end in
  out.

(** ** Time-Series Merger *)

(** 12 hours in milliseconds, as the code writes it. *)
Definition window : Z := 12 * 60 * 60 * 1000.

(** The three shapes of object the loop pushes. *)
Definition both (p : PricePoint) (m : MvrvPoint) : MergedPoint :=
  {| t := p_t p; price := p_price p; mvrv := m_mvrv m |}.
Definition price_only (p : PricePoint) : MergedPoint :=
  {| t := p_t p; price := p_price p; mvrv := VUndefined |}.
Definition mvrv_only (m : MvrvPoint) : MergedPoint :=
  {| t := m_t m; price := VUndefined; mvrv := m_mvrv m |}.

(** The [while] loop of [mergeSeries], on its variables [i], [j], [out]. *)
Fixpoint merge_loop (fuel : nat)
    (priceArr : option (list PricePoint)) (mvrvArr : option (list MvrvPoint))
    (i j : nat) (out : list MergedPoint) : outcome (list MergedPoint) :=
  if (i <? length_or_0 priceArr)%nat || (j <? length_or_0 mvrvArr)%nat then
    match fuel with
    | O => OutOfFuel
    | S fuel =>
        let* p := at_index priceArr i in
        let* m := at_index mvrvArr j in
        match p, m with
        | Some p, Some m =>
            let tp := p_t p in
            let tm := m_t m in
            if (Z.abs (tp - tm) <=? window)%Z then
              merge_loop fuel priceArr mvrvArr (S i) (S j) (out ++ [both p m])
            else if (tp <? tm)%Z then
              merge_loop fuel priceArr mvrvArr (S i) j (out ++ [price_only p])
            else
              merge_loop fuel priceArr mvrvArr i (S j) (out ++ [mvrv_only m])
        | Some p, None =>
            merge_loop fuel priceArr mvrvArr (S i) j (out ++ [price_only p])
        | None, Some m =>
            merge_loop fuel priceArr mvrvArr i (S j) (out ++ [mvrv_only m])
        | None, None => Returns out
        end
    end
  else Returns out.

(** Every iteration advances [i] or [j], so the two lengths bound the
    number of iterations. *)
Definition mergeSeries
    (priceArr : option (list PricePoint)) (mvrvArr : option (list MvrvPoint))
    : outcome (list MergedPoint) :=
  merge_loop (length_or_0 priceArr + length_or_0 mvrvArr) priceArr mvrvArr 0 0 [].

(** ** Axis Tick Generator *)

(** [for (let t = alignedStart; t <= end + 1; t += step) ticks.push(t)] *)
Fixpoint ticks_loop (fuel : nat) (t end_ step : Z) (ticks : list Z)
    : outcome (list Z) :=
  if (t <=? end_ + 1)%Z then
    match fuel with
    | O => OutOfFuel
    | S fuel => ticks_loop fuel (t + step)%Z end_ step (ticks ++ [t])
    end
  else Returns ticks.

Definition oneDay : Z := 24 * 60 * 60 * 1000.
Definition step : Z := 10 * oneDay.

(** [%] is JavaScript's remainder, which takes the sign of the dividend:
    [Z.rem].  The loop runs once per stride that fits below [end + 1]. *)
Definition compute10DayTicks (series : option (list PricePoint)) : outcome (list Z) :=
  match series with
  | None | Some [] => Returns []
  | Some ((first :: _) as l) =>
      let start := p_t first in
      let end_ := p_t (List.last l first) in
      let alignedStart := (start - Z.rem start oneDay)%Z in
      ticks_loop (Z.to_nat ((end_ + 1 - alignedStart) / step + 1)) alignedStart end_ step []
  end.

(** ** Strings

    A string is the byte sequence of its UTF-8 encoding. *)

Definition LF : ascii := "010"%char.
Definition CR : ascii := "013"%char.
Definition DQ : ascii := "034"%char.

(** U+2028 LINE SEPARATOR and U+2029 PARAGRAPH SEPARATOR, three bytes
    each. *)
Definition LS : string :=
  String "226"%char (String "128"%char (String "168"%char EmptyString)).
Definition PS : string :=
  String "226"%char (String "128"%char (String "169"%char EmptyString)).

(** The line terminators of a regular expression are LF, CR, U+2028 and
    U+2029: the number of bytes of the one [s] starts with, [0] when it
    starts with none.  The atom [.] refuses them; under the [m] flag the
    anchor for the start of a line holds after one and the anchor for its
    end before one. *)
Definition line_terminator (s : string) : nat :=
  match s with
  | EmptyString => 0
  | String c _ =>
      if Ascii.eqb c LF || Ascii.eqb c CR then 1
      else if String.prefix LS s || String.prefix PS s then 3
      else 0
  end.

Fixpoint string_drop (n : nat) (s : string) : string :=
  match n, s with
  | S n, String _ s' => string_drop n s'
  | _, _ => s
  end.

(** [String.prototype.toLowerCase] is taken as given: a function on
    strings that leaves the empty string empty.  Nothing else is assumed of
    it; it is no map over the characters (a capital sigma is lowered
    according to its place in the word) and it can change the length of the
    text. *)
Class Lowercase : Type := {
  toLowerCase : string -> string;
  toLowerCase_empty : toLowerCase EmptyString = EmptyString
}.

(** On text whose cased letters are all among [A]..[Z] and [a]..[z],
    [toLowerCase] lowers [A]..[Z] and keeps every other byte.  The fixtures
    are such text, and are evaluated with it. *)
Definition ascii_lower (c : ascii) : ascii :=
  let n := nat_of_ascii c in
  if (65 <=? n)%nat && (n <=? 90)%nat then ascii_of_nat (n + 32) else c.

Fixpoint ascii_toLowerCase (s : string) : string :=
  match s with
  | EmptyString => EmptyString
  | String c s' => String (ascii_lower c) (ascii_toLowerCase s')
  end.

Definition ascii_lowercase : Lowercase :=
  {| toLowerCase := ascii_toLowerCase; toLowerCase_empty := eq_refl |}.

(** [s.includes(q)]: [q] occurs in [s] as a contiguous substring.  On
    well-formed text an occurrence in UTF-16 code units is an occurrence in
    UTF-8 bytes, and conversely. *)
Fixpoint includes (s q : string) : bool :=
  String.prefix q s ||
  match s with
  | EmptyString => false
  | String _ s' => includes s' q
  end.

(** ** Text Search Filter *)

(** A post of the index; [excerpt] and [tags] are the two fields the code
    guards ([p.excerpt || ""], [Array.isArray(p.tags)]). *)
Record Post : Type := {
  slug : string;
  title : string;
  date : string;
  excerpt : option string;
  tags : option (list string);
  mdPath : string
}.

(** [x || ""] on a string that may be absent. *)
Definition or_empty (x : option string) : string :=
  match x with
  | Some s => s
  | None => EmptyString
  end.

(** The content map is a plain object: its own properties, which hold the
    loaded bodies, and behind them the members every object inherits from
    [Object.prototype], functions all but [__proto__], which is that
    object. *)
Definition inherited_names : list string :=
  ["constructor"; "hasOwnProperty"; "isPrototypeOf"; "propertyIsEnumerable";
   "toLocaleString"; "toString"; "valueOf"; "__proto__"; "__defineGetter__";
   "__defineSetter__"; "__lookupGetter__"; "__lookupSetter__"].

Definition inherited (key : string) : bool :=
  existsb (String.eqb key) inherited_names.

(** What [contentMap[key]] gives: a string of the map's own, a member of
    [Object.prototype] (truthy, and no string), or [undefined]. *)
Inductive member : Type :=
| Str (s : string)
| Builtin
| Absent.

Definition property (contentMap : gmap string string) (key : string) : member :=
  match contentMap !! key with
  | Some s => Str s
  | None => if inherited key then Builtin else Absent
  end.

(** [posts.filter(f)], the callback called on the posts in order; an
    exception of the callback ends the call. *)
Fixpoint filter_posts (f : Post -> outcome bool) (posts : list Post)
    : outcome (list Post) :=
  match posts with
  | [] => Returns []
  | p :: rest =>
      let* keep := f p in
      let* found := filter_posts f rest in
      Returns (if keep then p :: found else found)
  end.

Section Search.
Context {L : Lowercase}.

(** The callback given to [posts.filter].  [contentMap?.[p.slug] || ""]
    is the member itself when that is truthy, and [content.toLowerCase()]
    raises when it is no string. *)
Definition post_matches (query : string) (contentMap : option (gmap string string))
    (p : Post) : outcome bool :=
  let inTitle := includes (toLowerCase (title p)) query in
  let inExcerpt := includes (toLowerCase (or_empty (excerpt p))) query in
  let inTags :=
    match tags p with
    | Some ts => existsb (fun t => includes (toLowerCase t) query) ts
    | None => false
    end in
  let content :=
    match contentMap with
    | Some cm =>
        match property cm (slug p) with
        | Str EmptyString | Absent => Str EmptyString
        | m => m
        end
    | None => Str EmptyString
    end in
  let* lowered :=
    match content with
    | Str s => Returns (toLowerCase s)
    | _ => Throws TypeError
    end in
  let inContent := includes lowered query in
  Returns (inTitle || inExcerpt || inTags || inContent).

Definition searchPosts (posts : list Post) (q : option string)
    (contentMap : option (gmap string string)) : outcome (list Post) :=
  match q with
  | None | Some EmptyString => Returns posts
  | Some q =>
      let query := toLowerCase q in
      filter_posts (post_matches query contentMap) posts
  end.

End Search.

(** ** Markdown Renderer *)

(** A regular expression of the renderer, with its replacement: asked at a
    position of the subject ([bol]: the position starts a line), it answers
    with the replacement text and the number of bytes the match consumes.
    No pattern of the renderer matches the empty string. *)
Definition matcher : Type := bool -> string -> option (string * nat).

(** [subject.replace(/.../g, ...)]: the matches are found left to right and
    do not overlap.  [bol]: the position starts a line, the subject or a
    line terminator ending there; [term]: the bytes still to pass of a line
    terminator begun before the position; [skip]: the bytes still to pass of
    the current match. *)
Fixpoint replace_from (rx : matcher) (bol : bool) (term skip : nat) (s : string)
    : string :=
  match s with
  | EmptyString => EmptyString
  | String c s' =>
      let here := match term with O => line_terminator s | _ => term end in
      let bol' := Nat.eqb here 1 in
      let term' := Nat.pred here in
      match skip with
      | S k => replace_from rx bol' term' k s'
      | O =>
          match rx bol s with
          | Some (r, n) => r +:+ replace_from rx bol' term' (Nat.pred n) s'
          | None => String c (replace_from rx bol' term' 0 s')
          end
      end
  end.

Definition replace (rx : matcher) (s : string) : string := replace_from rx true 0 0 s.

(** The longest run without a line terminator, which a star on [.]
    matches. *)
Fixpoint rest_of_line (s : string) : string :=
  match s with
  | EmptyString => EmptyString
  | String c s' =>
      if (0 <? line_terminator s)%nat then EmptyString else String c (rest_of_line s')
  end.

(** A lazy star on [.] in a group, followed by the literal [close]: the
    shortest run without a line terminator after which [close] stands. *)
Fixpoint lazy_until (close : string) (s : string) : option string :=
  if String.prefix close s then Some EmptyString
  else
    match s with
    | EmptyString => None
    | String c s' =>
        if (0 <? line_terminator s)%nat then None
        else option_map (String c) (lazy_until close s')
    end.

(** [[^`]+] needs the longest run without a backtick. *)
Fixpoint until_backtick (s : string) : string :=
  match s with
  | EmptyString => EmptyString
  | String c s' =>
      if Ascii.eqb c "`"%char then EmptyString else String c (until_backtick s')
  end.

(** The link pattern after its opening bracket: the shortest label after
    which a closing bracket and an opening parenthesis stand, and a closing
    parenthesis follows on the line. *)
Fixpoint link_parts (s : string) : option (string * string) :=
  match (if String.prefix "](" s then lazy_until ")" (string_drop 2 s) else None) with
  | Some url => Some (EmptyString, url)
  | None =>
      match s with
      | EmptyString => None
      | String c s' =>
          if (0 <? line_terminator s)%nat then None
          else option_map (fun lu => (String c (fst lu), snd lu)) (link_parts s')
      end
  end.

(** An opening tag with a [class] attribute. *)
Definition quoted (s : string) : string := String DQ (s +:+ String DQ EmptyString).
Definition tag_class (name cls : string) : string :=
  "<" +:+ name +:+ " class=" +:+ quoted cls +:+ ">".

(** [/^marker(.*$)/gim] *)
Definition line_rule (marker open_ close_ : string) : matcher := fun bol s =>
  if bol && String.prefix marker s then
    let body := rest_of_line (string_drop (String.length marker) s) in
    Some (open_ +:+ body +:+ close_, String.length marker + String.length body)
  else None.

(** [/open(.*?)close/gim] *)
Definition span_rule (open_ close_ before after : string) : matcher := fun _ s =>
  if String.prefix open_ s then
    match lazy_until close_ (string_drop (String.length open_) s) with
    | Some body =>
        Some (before +:+ body +:+ after,
              String.length open_ + String.length body + String.length close_)
    | None => None
    end
  else None.

Definition rx_h3 : matcher :=
  line_rule "### " (tag_class "h3" "text-lg font-semibold mt-6 mb-2") "</h3>".
Definition rx_h2 : matcher :=
  line_rule "## " (tag_class "h2" "text-xl font-semibold mt-8 mb-3") "</h2>".
Definition rx_h1 : matcher :=
  line_rule "# " (tag_class "h1" "text-2xl font-bold mt-8 mb-4") "</h1>".
Definition rx_quote : matcher :=
  line_rule "> " (tag_class "blockquote" "border-l pl-4 italic opacity-80 my-4")
            "</blockquote>".
Definition rx_bold : matcher := span_rule "**" "**" "<strong>" "</strong>".
Definition rx_italic : matcher := span_rule "*" "*" "<em>" "</em>".

(** [/`([^`]+)`/gim] *)
Definition rx_code : matcher := fun _ s =>
  match s with
  | String "`"%char s' =>
      let body := until_backtick s' in
      if (0 <? String.length body)%nat
         && String.prefix "`" (string_drop (String.length body) s')
      then Some (tag_class "code" "px-1 py-0.5 text-sm rounded bg-neutral-800/40"
                   +:+ body +:+ "</code>",
                 String.length body + 2)
      else None
  | _ => None
  end.

(** The list rule: a newline, a dash, a space and then [.*], the rest of
    the line, as the one group. *)
Definition rx_item : matcher := fun _ s =>
  let marker := String LF "- " in
  if String.prefix marker s then
    let body := rest_of_line (string_drop 3 s) in
    Some (tag_class "ul" "list-disc ml-6 my-2" +:+ "<li>" +:+ body +:+ "</li></ul>",
          3 + String.length body)
  else None.

(** The paragraph rule: two newlines. *)
Definition rx_break : matcher := fun _ s =>
  if String.prefix (String LF (String LF EmptyString)) s
  then Some ("<br/><br/>", 2) else None.

(** [/\[(.*?)\]\((.*?)\)/g] *)
Definition rx_link : matcher := fun _ s =>
  match s with
  | String "["%char s' =>
      match link_parts s' with
      | Some (label, url) =>
          Some ("<a class=" +:+ quoted "underline hover:no-underline"
                  +:+ " href=" +:+ quoted url
                  +:+ " target=" +:+ quoted "_blank"
                  +:+ " rel=" +:+ quoted "noreferrer" +:+ ">" +:+ label +:+ "</a>",
                String.length label + String.length url + 4)
      | None => None
      end
  | _ => None
  end.

(** The chain of [replace] calls that builds [html] in [Markdown]. *)
Definition Markdown (text : string) : string :=
  let h := replace rx_h3 text in
  let h := replace rx_h2 h in
  let h := replace rx_h1 h in
  let h := replace rx_quote h in
  let h := replace rx_bold h in
  let h := replace rx_italic h in
  let h := replace rx_code h in
  let h := replace rx_item h in
  let h := replace rx_break h in
  let h := replace rx_link h in
  h.

(** * Specifications *)

(** ** The two-pointer walk, as the specification words it

    [Walk ps ms out]: [out] is what the walk emits from the heads [ps] and
    [ms] onwards.  A merged point carries both values; the specification
    does not say which timestamp it bears, so none is required of it here. *)

Definition carries_both (p : PricePoint) (m : MvrvPoint) (x : MergedPoint) : Prop :=
  price x = p_price p ∧ mvrv x = m_mvrv m.

Definition carries_price (p : PricePoint) (x : MergedPoint) : Prop :=
  t x = p_t p ∧ price x = p_price p ∧ mvrv x = VUndefined.

Definition carries_mvrv (m : MvrvPoint) (x : MergedPoint) : Prop :=
  t x = m_t m ∧ price x = VUndefined ∧ mvrv x = m_mvrv m.

Definition within_window (p : PricePoint) (m : MvrvPoint) : Prop :=
  (Z.abs (p_t p - m_t m) <= 43200000)%Z.

Inductive Walk : list PricePoint -> list MvrvPoint -> list MergedPoint -> Prop :=
| Walk_done :
    Walk [] [] []
| Walk_both p m ps ms x out :
    within_window p m ->
    carries_both p m x ->
    Walk ps ms out ->
    Walk (p :: ps) (m :: ms) (x :: out)
| Walk_price_first p m ps ms x out :
    ¬ within_window p m ->
    (p_t p < m_t m)%Z ->
    carries_price p x ->
    Walk ps (m :: ms) out ->
    Walk (p :: ps) (m :: ms) (x :: out)
| Walk_mvrv_first p m ps ms x out :
    ¬ within_window p m ->
    (m_t m < p_t p)%Z ->
    carries_mvrv m x ->
    Walk (p :: ps) ms out ->
    Walk (p :: ps) (m :: ms) (x :: out)
| Walk_drain_price p ps x out :
    carries_price p x ->
    Walk ps [] out ->
    Walk (p :: ps) [] (x :: out)
| Walk_drain_mvrv m ms x out :
    carries_mvrv m x ->
    Walk [] ms out ->
    Walk [] (m :: ms) (x :: out).

(** The loop of [mergeSeries] read off as a function of the two remaining
    suffixes (the outer recursion is on the price suffix, the inner one on
    the MVRV suffix). *)
Fixpoint merge_lists (ps : list PricePoint) : list MvrvPoint -> list MergedPoint :=
  fix inner (ms : list MvrvPoint) : list MergedPoint :=
    match ps, ms with
    | [], [] => []
    | p :: ps', [] => price_only p :: merge_lists ps' []
    | [], m :: ms' => mvrv_only m :: inner ms'
    | p :: ps', m :: ms' =>
        if (Z.abs (p_t p - m_t m) <=? window)%Z then both p m :: merge_lists ps' ms'
        else if (p_t p <? m_t m)%Z then price_only p :: merge_lists ps' ms
        else mvrv_only m :: inner ms'
    end.

(** Ascending timestamps, and timestamps at least a window apart. *)
Definition ascending (ts : list Z) : Prop := Sorted Z.le ts.

Definition apart (a b : Z) : Prop := (a + window <= b)%Z.
Definition spaced (ts : list Z) : Prop := Sorted apart ts.

(** [b] is at most a window before [a]. *)
Definition near (a b : Z) : Prop := (a - window <= b)%Z.

(** ** The tick progression *)

(** [a], [a + d], ..., [a + (n - 1) d]. *)
Definition progression (a d : Z) (n : nat) : list Z :=
  map (fun k => (a + Z.of_nat k * d)%Z) (seq 0 n).

(** The number of strides of [d] from [t0] that stay at or below
    [end_ + 1]. *)
Definition strides (t0 end_ d : Z) : nat := Z.to_nat ((end_ + 1 - t0) / d + 1).

(** ** The search predicate, as the specification words it *)

Section SearchPredicate.
Context {L : Lowercase}.

Definition meta_matches (q : string) (p : Post) : Prop :=
  let query := toLowerCase q in
  includes (toLowerCase (title p)) query = true
  ∨ (∃ e, excerpt p = Some e ∧ includes (toLowerCase e) query = true)
  ∨ (∃ ts tg, tags p = Some ts ∧ tg ∈ ts ∧ includes (toLowerCase tg) query = true).

Definition content_matches (q : string) (contentMap : option (gmap string string))
    (p : Post) : Prop :=
  ∃ cm body, contentMap = Some cm ∧ cm !! slug p = Some body
             ∧ includes (toLowerCase body) (toLowerCase q) = true.

Definition spec_matches (q : string) (contentMap : option (gmap string string))
    (p : Post) : Prop :=
  meta_matches q p ∨ content_matches q contentMap p.

End SearchPredicate.

(** ** The alert tiers, as the specification words them *)

(** A number that is known. *)
Definition known (v : value) : option float :=
  match v with VNum x => Some x | _ => None end.

(** The two values the engine reads from a state: [state.mvrv.current] and
    [state.fngValue], [undefined] when the state or its [mvrv] is absent. *)
Definition mvrv_value (state : option DashState) : value :=
  match state with
  | Some s =>
      match state_mvrv s with
      | Some m => current m
      | None => VUndefined
      end
  | None => VUndefined
  end.

Definition fng_value (state : option DashState) : value :=
  match state with
  | Some s => fngValue s
  | None => VUndefined
  end.

(** The snapshot [{ mvrv: { current: mv }, fngValue: fg }]. *)
Definition snapshot (mv fg : value) : option DashState :=
  Some {| state_mvrv := Some {| current := mv |}; fngValue := fg |}.

Definition headline (a : Alert) : Level * string := (level a, alert_title a).

Definition mvrv_tier (mv : option float) : list (Level * string) :=
  match mv with
  | Some x =>
      if (3.0 <=? x)%float then [(HIGH, "MVRV Overbought")]
      else if (2.5 <=? x)%float then [(MEDIUM, "MVRV Elevated")]
      else []
  | None => []
  end.

Definition greed_tier (fg : option float) : list (Level * string) :=
  match fg with
  | Some x => if (70 <=? x)%float then [(MEDIUM, "Extreme Greed")] else []
  | None => []
  end.

(** ** Fixtures *)

(** A post that mentions MVRV only in its body. *)
Definition fixture_post : Post :=
  {| slug := "ciclos"; title := "Leitura de ciclos"; date := "2025-08-06";
     excerpt := Some "Resumo de picos de ciclo"; tags := Some ["bitcoin"; "dados"];
     mdPath := "/posts/ciclos.md" |}.

Definition fixture_content : gmap string string := {[ "ciclos" := "mvrv details" ]}.

(** Two posts whose slug is the name of a member of [Object.prototype]. *)
Definition constructor_post : Post :=
  {| slug := "constructor"; title := "Notas de obra"; date := "2025-08-05";
     excerpt := Some "Como construir"; tags := Some ["obra"];
     mdPath := "/posts/constructor.md" |}.

Definition valueOf_post : Post :=
  {| slug := "valueOf"; title := "Valor e preco"; date := "2025-08-04";
     excerpt := None; tags := None; mdPath := EmptyString |}.



(** A price point half a day after the MVRV point it is merged with. *)
Definition half_day_late : list PricePoint :=
  [{| p_t := 43200000; p_price := VNum 68000 |}].
Definition at_epoch : list MvrvPoint := [{| m_t := 0; m_mvrv := VNum 2.1 |}].

(** Two MVRV points a millisecond apart, both before the only price point. *)
Definition late_price : list PricePoint := [{| p_t := 2; p_price := VNum 68000 |}].
Definition early_mvrv : list MvrvPoint :=
  [{| m_t := 0; m_mvrv := VNum 2.1 |}; {| m_t := 1; m_mvrv := VNum 2.2 |}].

(** Two daily series, the MVRV one an hour off. *)
Definition daily_price : list PricePoint :=
  [{| p_t := 0; p_price := VNum 68000 |}; {| p_t := 86400000; p_price := VNum 68100 |}].
Definition daily_mvrv : list MvrvPoint :=
  [{| m_t := 3600000; m_mvrv := VNum 2.1 |}; {| m_t := 172800000; m_mvrv := VNum 2.2 |}].

(** Series that start before the epoch. *)
Definition before_epoch : list PricePoint := [{| p_t := -1; p_price := VNum 1 |}].
Definition further_before_epoch : list PricePoint := [{| p_t := -5; p_price := VNum 1 |}].

(** An MVRV series with a negative value. *)
Definition negative_series : list MvrvPoint := [{| m_t := 0; m_mvrv := VNum (-5) |}].

(** The series of the specification's example, 1.8, 2.0, 2.3. *)
Definition sample_series : list MvrvPoint :=
  [{| m_t := 0; m_mvrv := VNum 1.8 |}; {| m_t := 86400000; m_mvrv := VNum 2.0 |};
   {| m_t := 172800000; m_mvrv := VNum 2.3 |}].

(** Sortedness of a literal list of timestamps. *)
Ltac sorted_by_computation :=
  unfold ascending, spaced; simpl;
  repeat (constructor; unfold apart, window; try lia).

(** A bound on every element, from a stronger bound [H] on every element. *)
Ltac weaken_bound H :=
  eapply Forall_impl; [exact H|]; unfold apart; simpl; intros; lia.

(** * The code around the six functions *)

(** ** Clamping *)

(** [Math.min(a, b)]: NaN if either is NaN, and [-0] is smaller than [+0]. *)
Definition Math_min (a b : float) : float :=
  if PrimFloat.is_nan a || PrimFloat.is_nan b then nan
  else if (a <? b)%float then a
  else if (b <? a)%float then b
  else match PrimFloat.classify a with NZero => a | _ => b end.

(** [x || 0] on a number that may be absent ([null] or [undefined]): the
    falsy numbers are [0], [-0] and NaN. *)
Definition number_or_0 (x : option float) : float :=
  match x with
  | Some x => if PrimFloat.is_nan x || PrimFloat.is_zero x then 0%float else x
  | None => 0%float
  end.

(** ** The Fear and Greed bar *)

(** What [FNGBar] draws: the width of the inner bar, in percent, and its
    colour. *)
Record Bar : Type := { bar_width : float; bar_color : string }.

Definition FNGBar (value : option float) : Bar :=
  let v := Math.max 0 (Math_min 100 (number_or_0 value)) in
  let color :=
    if (v <? 30)%float then "#dc2626"
    else if (v <=? 75)%float then "#f59e0b" else "#dc2626" in
  {| bar_width := v; bar_color := color |}.

(** ** Mock series

    [Date.now()] is the argument [now]; the [k]-th call of [Math.random()]
    inside one generator is [random k]. *)

(** The callback of [Array.from] in [generateMockPriceSeries], from index
    [i] on, with the running [price]. *)
Fixpoint mock_price_points (now : Z) (random : nat -> float) (days : nat)
    (i remaining : nat) (price : float) : list PricePoint :=
  match remaining with
  | O => []
  | S remaining =>
      let price := (price + (random i - 0.5) * 1200)%float in
      let t := (now - (Z.of_nat days - 1 - Z.of_nat i) * 24 * 60 * 60 * 1000)%Z in
      {| p_t := t; p_price := VNum (Math.max 15000 price) |}
        :: mock_price_points now random days (S i) remaining price
  end.

Definition generateMockPriceSeries (now : Z) (random : nat -> float) (days : nat)
    : list PricePoint :=
  mock_price_points now random days 0 days 68000.

(** The callback of [Array.from] in [generateMockMVRVSeries]. *)
Fixpoint mock_mvrv_points (now : Z) (random : nat -> float) (len : nat)
    (i remaining : nat) (mvrv : float) : list MvrvPoint :=
  match remaining with
  | O => []
  | S remaining =>
      let mvrv := (mvrv + (random i - 0.5) * 0.06)%float in
      let t := (now - (Z.of_nat len - 1 - Z.of_nat i) * 24 * 60 * 60 * 1000)%Z in
      {| m_t := t; m_mvrv := VNum (Math.max 0.6 (Math_min 5 mvrv)) |}
        :: mock_mvrv_points now random len (S i) remaining mvrv
  end.

(** [{ current, series }] *)
Record MockMvrv : Type := { mock_current : value; mock_series : list MvrvPoint }.

(** [typeof anchorLength === 'number' && anchorLength > 0 ? anchorLength : 180].
    The argument is [None] when it is absent or not a number, and an integer
    otherwise: the code passes the length of an array.  A number with a
    fraction is not covered (its timestamps would have fractions too; below
    one the array is empty and reading its last element raises), nor is the
    limit of [2 ^ 32 - 1] elements, from which on [Array.from] raises a
    [RangeError]. *)
Definition mock_length (anchorLength : option Z) : nat :=
  match anchorLength with
  | Some n => if (0 <? n)%Z then Z.to_nat n else 180
  | None => 180
  end.

(** [arr[arr.length - 1].mvrv] raises on an empty [arr]. *)
Definition generateMockMVRVSeries (now : Z) (random : nat -> float)
    (anchorLength : option Z) : outcome MockMvrv :=
  let len := mock_length anchorLength in
  let arr := mock_mvrv_points now random len 0 len 2.1 in
  match last arr with
  | Some p => Returns {| mock_current := m_mvrv p; mock_series := arr |}
  | None => Throws TypeError
  end.

(** [typeof p.mvrv === 'number'] on a point. *)
Definition numeric_point (p : MvrvPoint) : bool := is_number (m_mvrv p).

(** ** The dashboard's state and its refresh steps *)

(** [x || d] on a string that may be absent; the empty string is falsy. *)
Definition or_else (x : option string) (d : string) : string :=
  match x with
  | Some (String c s) => String c s
  | _ => d
  end.

(** What [fetchBTC], [fetchFearGreed] and [fetchMVRV] resolve to. *)
Record PriceResult : Type := {
  pr_price : value;
  pr_change24h : value;
  pr_error : option string
}.

Record FngResult : Type := {
  fr_value : value;
  fr_classification : option string;
  fr_updated : option Z;
  fr_error : option string
}.

Record MvrvResult : Type := {
  mr_current : value;
  mr_series : option (list MvrvPoint);
  mr_fromProxy : bool;
  mr_error : option string
}.

(** The [errors] and [mvrv] objects, and the state of the component. *)
Record Errors : Type := {
  err_price : option string;
  err_fng : option string;
  err_mvrv : option string
}.

Record MvrvData : Type := {
  mv_current : value;
  mv_series : list MvrvPoint;
  mv_fromProxy : bool;
  mv_error : option string
}.

Record Dashboard : Type := {
  priceSeries : list PricePoint;
  dash_price : value;
  change24h : value;
  dash_fngValue : value;
  fngClass : option string;
  fngUpdated : option Z;
  dash_mvrv : MvrvData;
  errors : Errors
}.

(** [r && r.error ? r.error : 'fetch error'] *)
Definition error_text (error : option (option string)) : string :=
  match error with
  | Some e => or_else e "fetch error"
  | None => "fetch error"
  end.

(** The state at the first render: the mock price series and nothing else. *)
Definition initial_dashboard (now : Z) (random : nat -> float) : Dashboard :=
  {| priceSeries := generateMockPriceSeries now random 180;
     dash_price := VNull; change24h := VNull;
     dash_fngValue := VNull; fngClass := None; fngUpdated := None;
     dash_mvrv := {| mv_current := VNull; mv_series := []; mv_fromProxy := false;
                     mv_error := None |};
     errors := {| err_price := None; err_fng := None; err_mvrv := None |} |}.

(** [if (Array.isArray(hist) && hist.length) setPriceSeries(hist)] in
    [refreshAll]. *)
Definition set_history (hist : option (list PricePoint)) (d : Dashboard) : Dashboard :=
  match hist with
  | Some (p :: h) =>
      {| priceSeries := p :: h; dash_price := dash_price d; change24h := change24h d;
         dash_fngValue := dash_fngValue d; fngClass := fngClass d;
         fngUpdated := fngUpdated d; dash_mvrv := dash_mvrv d; errors := errors d |}
  | _ => d
  end.

Definition refreshPrice (r : option PriceResult) (d : Dashboard) : Dashboard :=
  match r with
  | Some {| pr_price := VNum x; pr_change24h := c |} =>
      {| priceSeries := priceSeries d; dash_price := VNum x; change24h := c;
         dash_fngValue := dash_fngValue d; fngClass := fngClass d;
         fngUpdated := fngUpdated d; dash_mvrv := dash_mvrv d;
         errors := {| err_price := None; err_fng := err_fng (errors d);
                      err_mvrv := err_mvrv (errors d) |} |}
  | _ =>
      {| priceSeries := priceSeries d; dash_price := dash_price d;
         change24h := change24h d;
         dash_fngValue := dash_fngValue d; fngClass := fngClass d;
         fngUpdated := fngUpdated d; dash_mvrv := dash_mvrv d;
         errors := {| err_price := Some (error_text (option_map pr_error r));
                      err_fng := err_fng (errors d);
                      err_mvrv := err_mvrv (errors d) |} |}
  end.

(** [clock] is what [new Date()] reads. *)
Definition refreshFNG (r : option FngResult) (clock : Z) (d : Dashboard) : Dashboard :=
  match r with
  | Some {| fr_value := VNum x; fr_classification := c; fr_updated := u |} =>
      {| priceSeries := priceSeries d; dash_price := dash_price d;
         change24h := change24h d;
         dash_fngValue := VNum x; fngClass := Some (or_else c "Neutral");
         fngUpdated := Some (match u with Some u => u | None => clock end);
         dash_mvrv := dash_mvrv d;
         errors := {| err_price := err_price (errors d); err_fng := None;
                      err_mvrv := err_mvrv (errors d) |} |}
  | _ =>
      {| priceSeries := priceSeries d; dash_price := dash_price d;
         change24h := change24h d;
         dash_fngValue := VNum 74; fngClass := Some "Greed";
         fngUpdated := Some clock;
         dash_mvrv := dash_mvrv d;
         errors := {| err_price := err_price (errors d);
                      err_fng := Some (error_text (option_map fr_error r));
                      err_mvrv := err_mvrv (errors d) |} |}
  end.

Definition with_mvrv (m : MvrvData) (e : option string) (d : Dashboard) : Dashboard :=
  {| priceSeries := priceSeries d; dash_price := dash_price d; change24h := change24h d;
     dash_fngValue := dash_fngValue d; fngClass := fngClass d;
     fngUpdated := fngUpdated d; dash_mvrv := m;
     errors := {| err_price := err_price (errors d); err_fng := err_fng (errors d);
                  err_mvrv := e |} |}.

(** [seen] is the [priceSeries.length] of the render whose closure runs the
    refresh. *)
Definition refreshMVRV (r : option MvrvResult) (now : Z) (random : nat -> float)
    (seen : nat) (d : Dashboard) : outcome Dashboard :=
  match r with
  | Some {| mr_current := c; mr_series := Some (p :: ps); mr_fromProxy := f |} =>
      Returns (with_mvrv {| mv_current := c; mv_series := p :: ps; mv_fromProxy := f;
                            mv_error := None |} None d)
  | _ =>
      let* mock := generateMockMVRVSeries now random (Some (Z.of_nat seen)) in
      let e := error_text (option_map mr_error r) in
      Returns (with_mvrv {| mv_current := mock_current mock;
                            mv_series := mock_series mock; mv_fromProxy := false;
                            mv_error := Some e |} (Some e) d)
  end.

(** [fetchMVRV]: [attempt] is what the [try] block gets hold of, the
    [current] of the response and its points as the [map] converts them, or
    nothing when the block raises (the request fails, the status is not ok,
    the body is not what is expected); [msg] is the message the [catch]
    block then reports, beside a mock series. *)
Definition fetchMVRV (attempt : option (value * list MvrvPoint)) (msg : string)
    (now : Z) (random : nat -> float) : outcome MvrvResult :=
  match attempt with
  | Some (j_current, points) =>
      Returns {| mr_current :=
                   if is_number j_current then j_current
                   else match last points with
                        | Some p => m_mvrv p
                        | None => VNull
                        end;
                 mr_series := Some points; mr_fromProxy := true; mr_error := None |}
  | None =>
      let* mock := generateMockMVRVSeries now random None in
      Returns {| mr_current := mock_current mock; mr_series := Some (mock_series mock);
                 mr_fromProxy := false; mr_error := Some msg |}
  end.

(** [buildAlerts({ mvrv, fngValue })] and [computeMvrvDomain(mvrv.series)] in
    the render. *)
Definition dashboard_alerts (d : Dashboard) : list Alert :=
  buildAlerts (Some {| state_mvrv := Some {| current := mv_current (dash_mvrv d) |};
                       fngValue := dash_fngValue d |}).

(** One refresh step of the component, in any order and with any result. *)
Inductive refresh_step : Dashboard -> Dashboard -> Prop :=
| step_history hist d :
    refresh_step d (set_history hist d)
| step_price r d :
    refresh_step d (refreshPrice r d)
| step_fng r clock d :
    refresh_step d (refreshFNG r clock d)
| step_mvrv r now random seen d d' :
    refreshMVRV r now random seen d = Returns d' ->
    refresh_step d d'.

Inductive reachable (d0 : Dashboard) : Dashboard -> Prop :=
| reachable_start : reachable d0 d0
| reachable_step d d' : reachable d0 d -> refresh_step d d' -> reachable d0 d'.

(** ** The theme preference *)

(** The effect that reads the stored theme: [stored] is what
    [localStorage.getItem("theme")] gives, or the exception it raises;
    [prefers_light] is the media query. *)
Definition init_theme (stored : outcome (option string)) (prefers_light : bool)
    (darkMode : bool) : bool :=
  match stored with
  | Returns (Some s) =>
      if String.eqb s "dark" then true
      else if String.eqb s "light" then false
      else if prefers_light then false else darkMode
  | Returns None => if prefers_light then false else darkMode
  | _ => darkMode
  end.

(** The value the other effect stores. *)
Definition persist_theme (darkMode : bool) : string :=
  if darkMode then "dark" else "light".

(** ** Loading the body of the active post *)

(** [meta.mdPath || `/posts/${meta.slug}.md`] *)
Definition content_path (meta : Post) : string :=
  match mdPath meta with
  | EmptyString => "/posts/" +:+ slug meta +:+ ".md"
  | path => path
  end.

(** The post the effect fetches, if it fetches: there is an active slug,
    [contentMap[active]] is falsy (an empty string of the map's own, or
    nothing at all, inherited members included), and a post bears the
    slug. *)
Definition content_request (active : option string) (posts : list Post)
    (contentMap : gmap string string) : option Post :=
  match active with
  | None | Some EmptyString => None
  | Some a =>
      match property contentMap a with
      | Str EmptyString | Absent => List.find (fun p => String.eqb (slug p) a) posts
      | _ => None
      end
  end.

(** What [fetch(path)] ends in: a body, a response that is not ok, or a
    rejection. *)
Inductive fetched : Type :=
| Body (txt : string)
| NotOk
| Rejected.

Definition not_found_text : string := "# Conteúdo não encontrado".

(** [setContentMap((m) => ({ ...m, [meta.slug]: txt }))] *)
Definition content_loaded (meta : Post) (r : fetched) (contentMap : gmap string string)
    : gmap string string :=
  match r with
  | Body txt => <[slug meta := txt]> contentMap
  | NotOk => <[slug meta := not_found_text]> contentMap
  | Rejected => contentMap
  end.

(** [activePost ? contentMap[activePost.slug] : ""] and then
    [activeContent || ""]: what the page of the active post gives to
    [Markdown] as [text], a string or a member of [Object.prototype]. *)
Definition activeContent (active : option string) (posts : list Post)
    (contentMap : gmap string string) : member :=
  match active with
  | None | Some EmptyString => Str EmptyString
  | Some a =>
      match List.find (fun p => String.eqb (slug p) a) posts with
      | Some activePost =>
          match property contentMap (slug activePost) with
          | Str EmptyString | Absent => Str EmptyString
          | m => m
          end
      | None => Str EmptyString
      end
  end.

(** [<Markdown text={activeContent || ""} />]: the renderer calls
    [text.replace], which raises when [text] is no string. *)
Definition render_page (text : member) : outcome string :=
  match text with
  | Str s => Returns (Markdown s)
  | _ => Throws TypeError
  end.

(** ** Text without markdown *)

(** The characters with which a rule of the renderer can start a match,
    the line feed of the list and paragraph rules apart. *)
Definition markup_char (c : ascii) : bool :=
  Ascii.eqb c "#" || Ascii.eqb c "*" || Ascii.eqb c "`" || Ascii.eqb c "[".

(** Text of one line that holds none of them: no line terminator starts
    anywhere in it. *)
Fixpoint no_markup (s : string) : bool :=
  match s with
  | EmptyString => true
  | String c s' =>
      negb (markup_char c) && Nat.eqb (line_terminator s) 0 && no_markup s'
  end.




(** The posts at which the callback of the search raises: the map is there,
    it has no body of its own for the slug, and the slug names a member of
    [Object.prototype]. *)
Definition reads_inherited (contentMap : option (gmap string string)) (p : Post)
    : bool :=
  match contentMap with
  | Some cm => match property cm (slug p) with Builtin => true | _ => false end
  | None => false
  end.

(** What the callback of the search answers where it does not raise. *)
Definition matched {L : Lowercase} (query : string)
    (contentMap : option (gmap string string)) (p : Post) : bool :=
  match post_matches query contentMap p with
  | Returns b => b
  | _ => false
  end.

(** What every state of the component satisfies. *)
Definition dashboard_ok (d : Dashboard) : Prop :=
  priceSeries d ≠ []
  ∧ (dash_price d = VNull ∨ is_number (dash_price d) = true)
  ∧ (dash_fngValue d = VNull ∨ is_number (dash_fngValue d) = true)
  ∧ (mv_series (dash_mvrv d) = [] → mv_current (dash_mvrv d) = VNull).

(** A random source that always answers one half. *)
Definition steady (k : nat) : float := 0.5%float.

(** The dashboard at its first render, and two answers of the Fear and Greed
    service: a failure and a reading of 80. *)
Definition fixture_dashboard : Dashboard := initial_dashboard 1700000000000 steady.

Definition fng_failed : FngResult :=
  {| fr_value := VNull; fr_classification := None; fr_updated := None;
     fr_error := Some "http 500" |}.

Definition fng_live : FngResult :=
  {| fr_value := VNum 80; fr_classification := Some "Extreme Greed";
     fr_updated := Some 1700000000000%Z; fr_error := None |}.

(** * Properties *)

(** ** Time-Series Merger *)

Lemma merge_lists_nil_nil : merge_lists [] [] = [].
Proof. reflexivity. Qed.

Lemma merge_lists_cons_nil p ps :
  merge_lists (p :: ps) [] = price_only p :: merge_lists ps [].
Proof. reflexivity. Qed.

Lemma merge_lists_nil_cons m ms :
  merge_lists [] (m :: ms) = mvrv_only m :: merge_lists [] ms.
Proof. reflexivity. Qed.

Lemma merge_lists_cons_cons p ps m ms :
  merge_lists (p :: ps) (m :: ms) =
    if (Z.abs (p_t p - m_t m) <=? window)%Z then both p m :: merge_lists ps ms
    else if (p_t p <? m_t m)%Z then price_only p :: merge_lists ps (m :: ms)
    else mvrv_only m :: merge_lists (p :: ps) ms.
Proof. reflexivity. Qed.

Lemma merge_lists_nil ps ms : merge_lists ps ms = [] ↔ ps = [] ∧ ms = [].
Proof.
  split; [|by intros [-> ->]].
  destruct ps as [|p ps], ms as [|m ms]; try done.
  rewrite merge_lists_cons_cons.
  destruct (Z.abs (p_t p - m_t m) <=? window)%Z; [done|].
  by destruct (p_t p <? m_t m)%Z.
Qed.

Lemma drop_nil_iff {A} (l : list A) n : drop n l = [] ↔ length l ≤ n.
Proof.
  split; [|apply drop_ge].
  intros H. apply (f_equal length) in H. rewrite length_drop in H. simpl in H. lia.
Qed.

(** The loop invariant: from the state [(i, j, out)], with fuel for the
    points that remain, the loop returns [out] followed by the merge of the
    two remaining suffixes. *)
Lemma merge_loop_lists fuel : ∀ (ps : list PricePoint) (ms : list MvrvPoint) i j out,
  length ps - i + (length ms - j) ≤ fuel →
  merge_loop fuel (Some ps) (Some ms) i j out
  = Returns (out ++ merge_lists (drop i ps) (drop j ms)).
Proof.
  induction fuel as [|fuel IH]; intros ps ms i j out Hfuel.
  - assert (Hi : length ps ≤ i) by lia. assert (Hj : length ms ≤ j) by lia.
    simpl. destruct (Nat.ltb_spec i (length ps)); [lia|].
    destruct (Nat.ltb_spec j (length ms)); [lia|]. simpl.
    rewrite !drop_ge by done. by rewrite merge_lists_nil_nil, app_nil_r.
  - cbn [merge_loop length_or_0 at_index bind].
    destruct (ps !! i) as [p|] eqn:Hp; destruct (ms !! j) as [m|] eqn:Hm.
    + pose proof (lookup_lt_Some _ _ _ Hp). pose proof (lookup_lt_Some _ _ _ Hm).
      destruct (Nat.ltb_spec i (length ps)); [|lia]. cbn [orb].
      rewrite (drop_S _ _ _ Hp), (drop_S _ _ _ Hm), merge_lists_cons_cons.
      destruct (Z.abs (p_t p - m_t m) <=? window)%Z.
      * rewrite IH by lia. by rewrite <- app_assoc.
      * destruct (p_t p <? m_t m)%Z.
        -- rewrite IH by lia. by rewrite <- app_assoc, (drop_S _ _ _ Hm).
        -- rewrite IH by lia. by rewrite <- app_assoc, (drop_S _ _ _ Hp).
    + pose proof (lookup_lt_Some _ _ _ Hp). apply lookup_ge_None in Hm.
      destruct (Nat.ltb_spec i (length ps)); [|lia]. cbn [orb].
      rewrite (drop_S _ _ _ Hp), (drop_ge ms) by done.
      rewrite merge_lists_cons_nil, IH by lia.
      by rewrite <- app_assoc, (drop_ge ms).
    + pose proof (lookup_lt_Some _ _ _ Hm). apply lookup_ge_None in Hp.
      destruct (Nat.ltb_spec i (length ps)); [lia|].
      destruct (Nat.ltb_spec j (length ms)); [|lia]. cbn [orb].
      rewrite (drop_S _ _ _ Hm), (drop_ge ps) by done.
      rewrite merge_lists_nil_cons, IH by lia.
      by rewrite <- app_assoc, (drop_ge ps).
    + apply lookup_ge_None in Hp, Hm.
      destruct (Nat.ltb_spec i (length ps)); [lia|].
      destruct (Nat.ltb_spec j (length ms)); [lia|]. cbn [orb].
      rewrite !drop_ge by done. by rewrite merge_lists_nil_nil, app_nil_r.
Qed.

Lemma mergeSeries_lists ps ms :
  mergeSeries (Some ps) (Some ms) = Returns (merge_lists ps ms).
Proof.
  unfold mergeSeries. rewrite merge_loop_lists by (simpl; lia).
  by rewrite !drop_0.
Qed.

Lemma within_window_iff p m :
  (Z.abs (p_t p - m_t m) <=? window)%Z = true ↔ within_window p m.
Proof. unfold within_window, window. rewrite Z.leb_le. lia. Qed.

Lemma Walk_merge_lists ps : ∀ ms, Walk ps ms (merge_lists ps ms).
Proof.
  induction ps as [|p ps IHps]; intros ms; induction ms as [|m ms IHms].
  - constructor.
  - rewrite merge_lists_nil_cons. by apply Walk_drain_mvrv.
  - rewrite merge_lists_cons_nil. by apply Walk_drain_price.
  - rewrite merge_lists_cons_cons.
    destruct (Z.abs (p_t p - m_t m) <=? window)%Z eqn:Hw.
    + apply Walk_both; [by apply within_window_iff | done | apply IHps].
    + assert (Hnw : ¬ within_window p m).
      { rewrite <- within_window_iff. congruence. }
      destruct (Z.ltb_spec (p_t p) (m_t m)).
      * by apply Walk_price_first.
      * apply Walk_mvrv_first; [done | | done | done].
        unfold within_window in Hnw. lia.
Qed.

(** C1: on two present series (ordered or not) [mergeSeries] returns, and
    what it returns is the output of the specified two-pointer walk: heads
    within 12 hours give one point with both values and advance both
    pointers; otherwise the earlier head gives a point with its value alone
    and advances alone; an exhausted side leaves the other to be drained;
    and the loop stops at a state [(i, j)] exactly when both series are
    exhausted there. *)
Theorem mergeSeries_follows_walk (ps : list PricePoint) (ms : list MvrvPoint) :
  (∃ out, mergeSeries (Some ps) (Some ms) = Returns out ∧ Walk ps ms out)
  ∧ (∀ i j acc,
        merge_loop (length ps + length ms) (Some ps) (Some ms) i j acc = Returns acc
        ↔ length ps ≤ i ∧ length ms ≤ j).
Proof.
  split.
  - exists (merge_lists ps ms). split; [apply mergeSeries_lists | apply Walk_merge_lists].
  - intros i j acc. rewrite merge_loop_lists by lia.
    rewrite <- (drop_nil_iff ps), <- (drop_nil_iff ms), <- merge_lists_nil.
    split.
    + intros [= H]. by apply (app_inv_head acc); rewrite app_nil_r.
    + intros ->. by rewrite app_nil_r.
Qed.

(** C10: when the two heads are within the window, the point the loop
    pushes bears the timestamp of the price head (and both values), both
    indices advance, and the point stays in what the loop returns. *)
Theorem merged_point_bears_price_timestamp
    (ps : list PricePoint) (ms : list MvrvPoint) (i j : nat)
    (p : PricePoint) (m : MvrvPoint) (fuel : nat) (out : list MergedPoint) :
  ps !! i = Some p →
  ms !! j = Some m →
  within_window p m →
  ∃ x, merge_loop (S fuel) (Some ps) (Some ms) i j out
       = merge_loop fuel (Some ps) (Some ms) (S i) (S j) (out ++ [x])
       ∧ t x = p_t p ∧ price x = p_price p ∧ mvrv x = m_mvrv m
       ∧ (length ps - i + (length ms - j) ≤ S fuel →
          ∃ rest, merge_loop (S fuel) (Some ps) (Some ms) i j out
                  = Returns (out ++ x :: rest)).
Proof.
  intros Hp Hm Hw. exists (both p m).
  assert (Hstep : merge_loop (S fuel) (Some ps) (Some ms) i j out
                  = merge_loop fuel (Some ps) (Some ms) (S i) (S j) (out ++ [both p m])).
  { cbn [merge_loop length_or_0 at_index bind].
    pose proof (lookup_lt_Some _ _ _ Hp).
    destruct (Nat.ltb_spec i (length ps)); [|lia]. cbn [orb].
    rewrite Hp, Hm. apply within_window_iff in Hw. by rewrite Hw. }
  repeat split; [exact Hstep|].
  intros Hfuel. exists (merge_lists (drop (S i) ps) (drop (S j) ms)).
  pose proof (lookup_lt_Some _ _ _ Hp). pose proof (lookup_lt_Some _ _ _ Hm).
  rewrite Hstep, merge_loop_lists by lia. by rewrite <- app_assoc.
Qed.

(** A price head at 12:00 merged with an MVRV head at 00:00: the merged
    point is stamped 12:00. *)
Lemma merged_point_bears_price_timestamp_witness :
  half_day_late !! 0 = Some {| p_t := 43200000; p_price := VNum 68000 |}
  ∧ at_epoch !! 0 = Some {| m_t := 0; m_mvrv := VNum 2.1 |}
  ∧ within_window {| p_t := 43200000; p_price := VNum 68000 |}
                  {| m_t := 0; m_mvrv := VNum 2.1 |}
  ∧ ∃ x, merge_loop 2 (Some half_day_late) (Some at_epoch) 0 0 []
         = merge_loop 1 (Some half_day_late) (Some at_epoch) 1 1 ([] ++ [x])
         ∧ t x = 43200000%Z ∧ price x = VNum 68000 ∧ mvrv x = VNum 2.1
         ∧ (length half_day_late - 0 + (length at_epoch - 0) ≤ 2 →
            ∃ rest, merge_loop 2 (Some half_day_late) (Some at_epoch) 0 0 []
                    = Returns ([] ++ x :: rest)).
Proof.
  assert (Hw : within_window {| p_t := 43200000; p_price := VNum 68000 |}
                             {| m_t := 0; m_mvrv := VNum 2.1 |}).
  { unfold within_window. simpl. lia. }
  split; [reflexivity|]. split; [reflexivity|]. split; [exact Hw|].
  apply (merged_point_bears_price_timestamp half_day_late at_epoch 0 0
           {| p_t := 43200000; p_price := VNum 68000 |}
           {| m_t := 0; m_mvrv := VNum 2.1 |} 1 []);
    [reflexivity | reflexivity | exact Hw].
Defined.

Lemma window_nonneg : (0 <= window)%Z.
Proof. unfold window. lia. Qed.

Lemma apart_transitive : Relation_Definitions.transitive Z apart.
Proof. intros a b c. unfold apart. pose proof window_nonneg. lia. Qed.

Lemma Zle_transitive : Relation_Definitions.transitive Z Z.le.
Proof. intros a b c. lia. Qed.

(** A list whose points all lie at or after [x] can follow [x]. *)
Lemma Sorted_cons_bound (x : MergedPoint) (out : list MergedPoint) :
  Forall (fun y => (t x <= t y)%Z) out →
  Sorted Z.le (map t out) →
  Sorted Z.le (map t (x :: out)).
Proof.
  intros Hall Hsorted. simpl. constructor; [done|].
  destruct out as [|y out]; constructor.
  by inversion Hall.
Qed.

Lemma Forall_lower (L : Z) (x : MergedPoint) (out : list MergedPoint) :
  (L <= t x)%Z →
  Forall (fun y => (t x <= t y)%Z) out →
  Forall (fun y => (L <= t y)%Z) (x :: out).
Proof.
  intros Hx Hall. constructor; [done|]. weaken_bound Hall.
Qed.

(** The invariant behind ascending output: every point still to be emitted
    lies at or after the last one emitted.  A merged point is stamped with
    the price head, up to a window later than the MVRV head it consumes, so
    the next MVRV point must be a window later than that head. *)
Lemma merge_lists_bounded_sorted ps : ∀ ms L,
  StronglySorted Z.le (map p_t ps) →
  StronglySorted apart (map m_t ms) →
  Forall (fun a => (L <= a)%Z) (map p_t ps) →
  Forall (fun a => (L <= a)%Z) (map m_t ms) →
  Forall (fun x => (L <= t x)%Z) (merge_lists ps ms)
  ∧ Sorted Z.le (map t (merge_lists ps ms)).
Proof.
  pose proof window_nonneg as Hw.
  induction ps as [|p ps IHps]; intros ms; induction ms as [|m ms IHms];
    intros L Hps Hms HLp HLm.
  - split; constructor.
  - rewrite merge_lists_nil_cons.
    simpl in Hms, HLm. apply StronglySorted_inv in Hms as [Hms Hm].
    apply Forall_cons in HLm as [HLm HLms].
    destruct (IHms (m_t m) Hps Hms) as [Hb Hs]; [constructor| |].
    { weaken_bound Hm. }
    split.
    + by apply (Forall_lower L (mvrv_only m)).
    + by apply (Sorted_cons_bound (mvrv_only m)).
  - rewrite merge_lists_cons_nil.
    simpl in Hps, HLp. apply StronglySorted_inv in Hps as [Hps Hp].
    apply Forall_cons in HLp as [HLp HLps].
    destruct (IHps [] (p_t p) Hps Hms) as [Hb Hs]; [done|constructor|].
    split.
    + by apply (Forall_lower L (price_only p)).
    + by apply (Sorted_cons_bound (price_only p)).
  - rewrite merge_lists_cons_cons.
    pose proof Hps as Hps'. pose proof Hms as Hms'.
    simpl in Hps', Hms', HLp, HLm.
    apply StronglySorted_inv in Hps' as [Hps' Hp].
    apply StronglySorted_inv in Hms' as [Hms' Hm].
    apply Forall_cons in HLp as [HLp HLps].
    apply Forall_cons in HLm as [HLm HLms].
    destruct (Z.leb_spec (Z.abs (p_t p - m_t m)) window) as [Hin|Hout].
    + destruct (IHps ms (p_t p) Hps' Hms') as [Hb Hs]; [done| |].
      { weaken_bound Hm. }
      split.
      * by apply (Forall_lower L (both p m)).
      * by apply (Sorted_cons_bound (both p m)).
    + destruct (Z.ltb_spec (p_t p) (m_t m)) as [Hlt|Hge].
      * destruct (IHps (m :: ms) (p_t p) Hps' Hms) as [Hb Hs]; [done| |].
        { simpl. constructor; [lia|].
          weaken_bound Hm. }
        split.
        -- by apply (Forall_lower L (price_only p)).
        -- by apply (Sorted_cons_bound (price_only p)).
      * destruct (IHms (m_t m) Hps Hms') as [Hb Hs].
        { simpl. constructor; [lia|].
          weaken_bound Hp. }
        { weaken_bound Hm. }
        split.
        -- by apply (Forall_lower L (mvrv_only m)).
        -- by apply (Sorted_cons_bound (mvrv_only m)).
Qed.

Lemma Forall_lower_bound_exists (l : list Z) : ∃ L, Forall (fun a => (L <= a)%Z) l.
Proof.
  induction l as [|a l [L HL]].
  - exists 0%Z. constructor.
  - exists (Z.min a L). constructor; [lia|]. weaken_bound HL.
Qed.

(** C2, as the code has it: the output timestamps ascend when the price
    series ascends and consecutive MVRV points are at least 12 hours
    apart. *)
Theorem mergeSeries_ascending_when_spaced (ps : list PricePoint) (ms : list MvrvPoint) :
  ascending (map p_t ps) →
  spaced (map m_t ms) →
  ∃ out, mergeSeries (Some ps) (Some ms) = Returns out ∧ ascending (map t out).
Proof.
  intros Hps Hms. exists (merge_lists ps ms). split; [apply mergeSeries_lists|].
  destruct (Forall_lower_bound_exists (map p_t ps ++ map m_t ms)) as [L HL].
  apply Forall_app in HL as [HLp HLm].
  apply (merge_lists_bounded_sorted ps ms L); try done.
  - apply Sorted_StronglySorted; [exact Zle_transitive | done].
  - apply Sorted_StronglySorted; [exact apart_transitive | done].
Qed.

Lemma mergeSeries_ascending_when_spaced_witness :
  ascending (map p_t daily_price)
  ∧ spaced (map m_t daily_mvrv)
  ∧ ∃ out, mergeSeries (Some daily_price) (Some daily_mvrv) = Returns out
           ∧ ascending (map t out).
Proof.
  assert (Hp : ascending (map p_t daily_price)) by sorted_by_computation.
  assert (Hm : spaced (map m_t daily_mvrv)) by sorted_by_computation.
  split; [exact Hp|]. split; [exact Hm|].
  exact (mergeSeries_ascending_when_spaced daily_price daily_mvrv Hp Hm).
Defined.

(** C2 as stated fails: with the price point at 2 ms and MVRV points at 0
    and 1 ms, both series ascend, the first output point is the merged one
    stamped 2 and the second is the MVRV point stamped 1. *)
Lemma mergeSeries_output_can_descend :
  ¬ (∀ ps ms out,
        ascending (map p_t ps) → ascending (map m_t ms) →
        mergeSeries (Some ps) (Some ms) = Returns out →
        ascending (map t out)).
Proof.
  intros Hclaim.
  specialize (Hclaim late_price early_mvrv
                [{| t := 2; price := VNum 68000; mvrv := VNum 2.1 |};
                 {| t := 1; price := VUndefined; mvrv := VNum 2.2 |}]).
  assert (Hout : ascending [2; 1]%Z).
  { apply Hclaim; [sorted_by_computation | sorted_by_computation | reflexivity]. }
  apply Sorted_inv in Hout as [_ Hhd]. apply HdRel_inv in Hhd. lia.
Qed.

(** Every output point is stamped with the timestamp of an input point. *)
Lemma merge_lists_stamps ps : ∀ ms L,
  Forall (fun a => (L <= a)%Z) (map p_t ps) →
  Forall (fun a => (L <= a)%Z) (map m_t ms) →
  Forall (fun x => (L <= t x)%Z) (merge_lists ps ms).
Proof.
  induction ps as [|p ps IHps]; intros ms; induction ms as [|m ms IHms];
    intros L HLp HLm.
  - constructor.
  - rewrite merge_lists_nil_cons. simpl in HLm.
    apply Forall_cons in HLm as [HLm HLms]. constructor; [done|]. by apply IHms.
  - rewrite merge_lists_cons_nil. simpl in HLp.
    apply Forall_cons in HLp as [HLp HLps]. constructor; [done|]. by apply IHps.
  - rewrite merge_lists_cons_cons.
    pose proof HLp as HLp'. pose proof HLm as HLm'. simpl in HLp', HLm'.
    apply Forall_cons in HLp' as [Hp HLps].
    apply Forall_cons in HLm' as [Hm HLms].
    destruct (Z.abs (p_t p - m_t m) <=? window)%Z; [|destruct (p_t p <? m_t m)%Z].
    + constructor; [done|]. by apply IHps.
    + constructor; [done|]. by apply IHps.
    + constructor; [done|]. by apply IHms.
Qed.

Lemma Forall_weaken (L L' : Z) (l : list Z) :
  (L' <= L)%Z → Forall (fun a => (L <= a)%Z) l → Forall (fun a => (L' <= a)%Z) l.
Proof. intros HL Hall. weaken_bound Hall. Qed.

Lemma merge_lists_near_sorted ps : ∀ ms,
  StronglySorted Z.le (map p_t ps) →
  StronglySorted Z.le (map m_t ms) →
  StronglySorted near (map t (merge_lists ps ms)).
Proof.
  pose proof window_nonneg as Hw.
  assert (Hcons : ∀ x out L,
             (L = t x - window)%Z →
             Forall (fun y => (L <= t y)%Z) out →
             StronglySorted near (map t out) →
             StronglySorted near (map t (x :: out))).
  { intros x out L -> Hall Hs. simpl. constructor; [done|].
    apply Forall_map. exact Hall. }
  induction ps as [|p ps IHps]; intros ms; induction ms as [|m ms IHms];
    intros Hps Hms.
  - constructor.
  - rewrite merge_lists_nil_cons. simpl in Hms.
    apply StronglySorted_inv in Hms as [Hms Hm].
    apply (Hcons _ _ (t (mvrv_only m) - window)%Z); [done| |by apply IHms].
    apply merge_lists_stamps; [constructor|].
    apply (Forall_weaken (m_t m)); [simpl; lia | done].
  - rewrite merge_lists_cons_nil. simpl in Hps.
    apply StronglySorted_inv in Hps as [Hps Hp].
    apply (Hcons _ _ (t (price_only p) - window)%Z); [done| |by apply IHps].
    apply merge_lists_stamps; [|constructor].
    apply (Forall_weaken (p_t p)); [simpl; lia | done].
  - rewrite merge_lists_cons_cons.
    pose proof Hps as Hps'. pose proof Hms as Hms'. simpl in Hps', Hms'.
    apply StronglySorted_inv in Hps' as [Hps' Hp].
    apply StronglySorted_inv in Hms' as [Hms' Hm].
    destruct (Z.leb_spec (Z.abs (p_t p - m_t m)) window) as [Hin|Hout];
      [|destruct (Z.ltb_spec (p_t p) (m_t m)) as [Hlt|Hge]].
    + apply (Hcons _ _ (t (both p m) - window)%Z); [done| |by apply IHps].
      apply merge_lists_stamps.
      * apply (Forall_weaken (p_t p)); [simpl; lia | done].
      * apply (Forall_weaken (m_t m)); [simpl; lia | done].
    + apply (Hcons _ _ (t (price_only p) - window)%Z); [done| |by apply IHps].
      apply merge_lists_stamps.
      * apply (Forall_weaken (p_t p)); [simpl; lia | done].
      * simpl. constructor; [lia|].
        apply (Forall_weaken (m_t m)); [lia | done].
    + apply (Hcons _ _ (t (mvrv_only m) - window)%Z); [done| |by apply IHms].
      apply merge_lists_stamps.
      * simpl. constructor; [lia|].
        apply (Forall_weaken (p_t p)); [lia | done].
      * apply (Forall_weaken (m_t m)); [simpl; lia | done].
Qed.

(** Without the spacing, the output still ascends up to the window: no
    point is stamped more than 12 hours before a point emitted earlier. *)
Lemma mergeSeries_ascending_up_to_window ps ms :
  ascending (map p_t ps) →
  ascending (map m_t ms) →
  ∃ out, mergeSeries (Some ps) (Some ms) = Returns out
         ∧ StronglySorted near (map t out).
Proof.
  intros Hps Hms. exists (merge_lists ps ms). split; [apply mergeSeries_lists|].
  apply merge_lists_near_sorted;
    (apply Sorted_StronglySorted; [exact Zle_transitive | done]).
Qed.

(** C9: an absent array next to a non-empty one makes [mergeSeries] raise:
    the loop condition guards the length of an absent array, the loop body
    reads its elements unguarded. *)
Theorem mergeSeries_absent_array_throws :
  mergeSeries None (Some at_epoch) = Throws TypeError
  ∧ mergeSeries (Some half_day_late) None = Throws TypeError.
Proof. by vm_compute. Qed.

(** The same on every non-empty series: the first iteration already reads
    the absent array. *)
Lemma mergeSeries_absent_price m ms :
  mergeSeries None (Some (m :: ms)) = Throws TypeError.
Proof. reflexivity. Qed.

Lemma mergeSeries_absent_mvrv p ps :
  mergeSeries (Some (p :: ps)) None = Throws TypeError.
Proof. reflexivity. Qed.

(** On present arrays the merger returns, and with nothing to merge it
    returns the empty sequence. *)
Lemma mergeSeries_returns ps ms : ∃ out, mergeSeries (Some ps) (Some ms) = Returns out.
Proof. exists (merge_lists ps ms). apply mergeSeries_lists. Qed.

Lemma mergeSeries_nothing :
  mergeSeries None None = Returns []
  ∧ mergeSeries (Some []) None = Returns []
  ∧ mergeSeries None (Some []) = Returns []
  ∧ mergeSeries (Some []) (Some []) = Returns [].
Proof. by vm_compute. Qed.

(** ** Axis Tick Generator *)

Lemma progression_S a d n :
  progression a d (S n) = a :: progression (a + d) d n.
Proof.
  unfold progression. rewrite <- cons_seq, <- seq_shift. simpl.
  rewrite map_map. f_equal; [lia|].
  apply map_ext. intros k. lia.
Qed.

Lemma length_progression a d n : length (progression a d n) = n.
Proof. unfold progression. by rewrite length_map, length_seq. Qed.

Lemma strides_past t0 end_ d : (0 < d)%Z → (end_ + 1 < t0)%Z → strides t0 end_ d = 0.
Proof.
  intros Hd Hlt. unfold strides.
  assert ((end_ + 1 - t0) / d < 0)%Z by (apply Z.div_lt_upper_bound; lia).
  lia.
Qed.

Lemma strides_step t0 end_ d :
  (0 < d)%Z → (t0 <= end_ + 1)%Z → strides t0 end_ d = S (strides (t0 + d) end_ d).
Proof.
  intros Hd Hle. unfold strides.
  replace (end_ + 1 - (t0 + d))%Z with (end_ + 1 - t0 + (-1) * d)%Z by lia.
  rewrite Z.div_add by lia.
  assert (0 <= (end_ + 1 - t0) / d)%Z by (apply Z.div_pos; lia).
  lia.
Qed.

Lemma strides_bound t0 end_ d k :
  (0 < d)%Z → (t0 + Z.of_nat k * d <= end_ + 1)%Z ↔ k < strides t0 end_ d.
Proof.
  intros Hd. unfold strides. split.
  - intros Hle.
    assert (Z.of_nat k <= (end_ + 1 - t0) / d)%Z by (apply Z.div_le_lower_bound; lia).
    lia.
  - intros Hlt.
    assert (0 <= (end_ + 1 - t0) / d + 1)%Z by lia.
    assert (Z.of_nat k <= (end_ + 1 - t0) / d)%Z by lia.
    pose proof (Z.mul_div_le (end_ + 1 - t0) d Hd). nia.
Qed.

(** The [for] loop pushes the progression from [t0], and never needs more
    iterations than there are strides. *)
Lemma ticks_loop_progression fuel : ∀ t0 end_ d ticks,
  (0 < d)%Z →
  strides t0 end_ d ≤ fuel →
  ticks_loop fuel t0 end_ d ticks
  = Returns (ticks ++ progression t0 d (strides t0 end_ d)).
Proof.
  induction fuel as [|fuel IH]; intros t0 end_ d ticks Hd Hfuel.
  - simpl. destruct (Z.leb_spec t0 (end_ + 1)) as [Hle|Hgt].
    + rewrite strides_step in Hfuel by done. lia.
    + rewrite strides_past by done. by rewrite app_nil_r.
  - simpl. destruct (Z.leb_spec t0 (end_ + 1)) as [Hle|Hgt].
    + rewrite strides_step in Hfuel |- * by done.
      rewrite IH by (done || lia).
      by rewrite progression_S, <- app_assoc.
    + rewrite strides_past by done. by rewrite app_nil_r.
Qed.

Lemma step_pos : (0 < step)%Z.
Proof. unfold step, oneDay. lia. Qed.

Lemma compute10DayTicks_cons first rest :
  compute10DayTicks (Some (first :: rest))
  = Returns (progression (p_t first - Z.rem (p_t first) oneDay) step
               (strides (p_t first - Z.rem (p_t first) oneDay)
                        (p_t (List.last (first :: rest) first)) step)).
Proof.
  unfold compute10DayTicks. cbv zeta.
  rewrite ticks_loop_progression; [reflexivity | apply step_pos | reflexivity].
Qed.

(** The tick generator returns on every input, and the empty sequence on an
    empty or absent series. *)
Lemma compute10DayTicks_returns series :
  ∃ ticks, compute10DayTicks series = Returns ticks.
Proof.
  destruct series as [[|first rest]|]; [by exists [] | | by exists []].
  rewrite compute10DayTicks_cons. eauto.
Qed.

Lemma compute10DayTicks_empty :
  compute10DayTicks None = Returns [] ∧ compute10DayTicks (Some []) = Returns [].
Proof. done. Qed.

(** On a series that starts at or after the epoch the ticks are the 10-day
    progression from the start of the first day: the first tick is at most
    the first timestamp and less than a day before it, and the progression
    holds exactly the strides that stay at or below the last timestamp plus
    one millisecond. *)
Lemma compute10DayTicks_from_epoch first rest :
  let start := p_t first in
  let end_ := p_t (List.last (first :: rest) first) in
  let a := (start - start mod oneDay)%Z in
  (0 <= start)%Z →
  ∃ n, compute10DayTicks (Some (first :: rest)) = Returns (progression a step n)
       ∧ (a <= start < a + oneDay)%Z
       ∧ (a mod oneDay = 0)%Z
       ∧ ∀ k, (a + Z.of_nat k * step <= end_ + 1)%Z ↔ k < n.
Proof.
  intros start end_ a Hstart.
  assert (Hday : (0 < oneDay)%Z) by (unfold oneDay; lia).
  exists (strides a end_ step). rewrite compute10DayTicks_cons.
  fold start. rewrite (Z.rem_mod_nonneg start oneDay) by lia. fold a. fold end_.
  pose proof (Z.mod_pos_bound start oneDay Hday).
  repeat split; try (unfold a; lia).
  - unfold a. rewrite Zminus_mod_idemp_r. rewrite Z.sub_diag. done.
  - by apply strides_bound, step_pos.
  - by apply strides_bound, step_pos.
Qed.

(** C7: before the epoch the start is aligned up, not down.  The series
    holding the one timestamp -1 gets the single tick 0, which lies after
    every point of the series (aligned down, the tick would be -86400000);
    the series holding -5 gets no tick at all, though it is not empty. *)
Theorem compute10DayTicks_before_epoch :
  compute10DayTicks (Some before_epoch) = Returns [0%Z]
  ∧ Forall (fun p => (p_t p < 0)%Z) before_epoch
  ∧ compute10DayTicks (Some further_before_epoch) = Returns [].
Proof.
  split; [by vm_compute|]. split; [|by vm_compute].
  repeat constructor.
Qed.

(** ** Value Domain Calculator *)

(** The rounding functions on a few doubles, zero signs included. *)
Example Math_floor_ceil_samples :
  Math.floor 17.5 = 17%float ∧ Math.floor (-50.5) = (-51)%float
  ∧ Math.ceil 23.5 = 24%float ∧ Math.ceil (-49.5) = (-49)%float
  ∧ Math.floor 0.5 = 0%float ∧ Math.ceil (-0.5) = (-0)%float
  ∧ Math.floor infinity = infinity ∧ Math.max 0 (-5.1) = 0%float.
Proof. by vm_compute. Qed.

Lemma fold_domain_step_no_number (l : list MvrvPoint) acc :
  Forall (fun p => is_number (m_mvrv p) = false) l →
  fold_left domain_step l acc = acc.
Proof.
  revert acc. induction l as [|p l IH]; intros acc Hall; [done|].
  apply Forall_cons in Hall as [Hp Hl]. simpl. rewrite <- (IH acc Hl) at 2.
  f_equal. unfold domain_step. by destruct (m_mvrv p).
Qed.

(** The default domain: no array, no element, or no numeric value. *)
Lemma computeMvrvDomain_default (arr : option (list MvrvPoint)) :
  match arr with
  | Some l => Forall (fun p => is_number (m_mvrv p) = false) l
  | None => True
  end →
  computeMvrvDomain arr = (0, 4)%float.
Proof.
  destruct arr as [[|p l]|]; try done.
  intros Hall. unfold computeMvrvDomain.
  by rewrite fold_domain_step_no_number.
Qed.

(** The specification's example: 1.8, 2.0, 2.3 gives the domain 1.7 to 2.4. *)
Example computeMvrvDomain_sample :
  computeMvrvDomain (Some sample_series) = (1.7, 2.4)%float.
Proof. by vm_compute. Qed.

(** C3: only the lower bound is clamped at 0.  The series with the single
    value -5 gets the domain from 0 to -4.9, whose lower bound exceeds its
    upper bound. *)
Theorem computeMvrvDomain_negative_series :
  computeMvrvDomain (Some negative_series) = (0, -4.9)%float
  ∧ (fst (computeMvrvDomain (Some negative_series))
       <=? snd (computeMvrvDomain (Some negative_series)))%float = false.
Proof. by vm_compute. Qed.

(** ** Alert Rule Engine *)

Lemma mvrv_tier_at_most_one mv : length (mvrv_tier mv) ≤ 1.
Proof.
  destruct mv as [x|]; simpl; [|lia].
  destruct (3.0 <=? x)%float; [simpl; lia|].
  destruct (2.5 <=? x)%float; simpl; lia.
Qed.

Lemma buildAlerts_unknown mv fg :
  is_number mv = false → is_number fg = false → buildAlerts (snapshot mv fg) = [].
Proof. by destruct mv, fg. Qed.

Lemma buildAlerts_no_state : buildAlerts None = [].
Proof. done. Qed.

(** C4, with the titles the code gives: for every state, the levels and
    titles of the alerts are those of the MVRV tier (HIGH "MVRV Overbought"
    from 3.0, else MEDIUM "MVRV Elevated" from 2.5, never both) followed by
    those of the sentiment tier (MEDIUM "Extreme Greed" from 70); a value
    that is not a number gives no alert for its signal.  (3.1, 80) gives a
    HIGH and a MEDIUM alert, (2.6, 50) one MEDIUM alert titled
    "MVRV Elevated", (1.0, 20) none. *)
Theorem buildAlerts_tiers :
  (∀ state : option DashState,
      map headline (buildAlerts state)
      = mvrv_tier (known (mvrv_value state)) ++ greed_tier (known (fng_value state)))
  ∧ (∀ mv, length (mvrv_tier mv) ≤ 1)
  ∧ map level (buildAlerts (snapshot (VNum 3.1) (VNum 80))) = [HIGH; MEDIUM]
  ∧ map headline (buildAlerts (snapshot (VNum 2.6) (VNum 50)))
    = [(MEDIUM, "MVRV Elevated")]
  ∧ buildAlerts (snapshot (VNum 1.0) (VNum 20)) = [].
Proof.
  split; [|split; [exact mvrv_tier_at_most_one | by vm_compute]].
  intros [[[[mv]|] fg]|]; [| |reflexivity];
    unfold buildAlerts, mvrv_value, fng_value, mvrv_tier, greed_tier, known;
    cbn [state_mvrv current fngValue];
    try destruct mv as [| |b|x|s]; destruct fg as [| |b'|y|s']; cbn [is_number app];
    try reflexivity;
    repeat match goal with
           | |- context [(?a <=? ?b)%float] => destruct (a <=? b)%float
           end; reflexivity.
Qed.

(** C4 as stated fails on the title: at (2.6, 50) the one alert is titled
    "MVRV Elevated", not "Elevated". *)
Lemma buildAlerts_title_is_not_Elevated :
  ¬ (∃ a, buildAlerts (snapshot (VNum 2.6) (VNum 50)) = [a]
          ∧ level a = MEDIUM ∧ alert_title a = "Elevated").
Proof.
  intros (a & Heq & _ & Htitle).
  vm_compute in Heq. injection Heq as <-. discriminate Htitle.
Qed.

(** ** Text Search Filter *)

Lemma includes_empty s : includes s EmptyString = true.
Proof. by destruct s. Qed.

Lemma empty_includes q : includes EmptyString q = true → q = EmptyString.
Proof. destruct q; [done|]. simpl. discriminate. Qed.

Lemma sublist_List_filter {A} (f : A → bool) (l : list A) : sublist (List.filter f l) l.
Proof.
  induction l as [|x l IH]; simpl; [constructor|].
  destruct (f x); by constructor.
Qed.

Lemma elem_of_List_filter {A} (f : A → bool) (l : list A) x :
  x ∈ List.filter f l ↔ x ∈ l ∧ f x = true.
Proof. rewrite !list_elem_of_In. apply filter_In. Qed.

(** A member is read from [Object.prototype] when the map has none of its
    own under a name of that object. *)
Lemma property_Builtin cm key :
  property cm key = Builtin ↔ cm !! key = None ∧ inherited key = true.
Proof.
  unfold property. destruct (cm !! key) as [s|]; [by split; [|intros [? _]]|].
  destruct (inherited key); by split; [|intros [_ ?]].
Qed.

Lemma reads_inherited_iff contentMap p :
  reads_inherited contentMap p = true
  ↔ ∃ cm, contentMap = Some cm ∧ cm !! slug p = None ∧ inherited (slug p) = true.
Proof.
  unfold reads_inherited. destruct contentMap as [cm|].
  - destruct (property cm (slug p)) eqn:Hprop.
    + split; [done|]. intros (cm' & [= <-] & Hprop').
      apply property_Builtin in Hprop'. congruence.
    + apply property_Builtin in Hprop. split; [eauto|done].
    + split; [done|]. intros (cm' & [= <-] & Hprop').
      apply property_Builtin in Hprop'. congruence.
  - split; [done|]. by intros (cm & [=] & _).
Qed.

Section SearchFacts.
Context {L : Lowercase}.

(** [x || ""] matches either through a present [x] or, vacuously, when the
    query is empty. *)
Lemma or_empty_includes (x : option string) query :
  includes (toLowerCase (or_empty x)) query = true →
  (∃ s, x = Some s ∧ includes (toLowerCase s) query = true) ∨ query = EmptyString.
Proof.
  destruct x as [s|]; simpl.
  - intros H. left. eauto.
  - rewrite toLowerCase_empty. intros H. right. by apply empty_includes.
Qed.

Lemma tags_match (ts : list string) query :
  existsb (fun tg => includes (toLowerCase tg) query) ts = true
  ↔ ∃ tg, tg ∈ ts ∧ includes (toLowerCase tg) query = true.
Proof.
  rewrite existsb_exists. split; intros (tg & Hin & Hinc); exists tg.
  - by rewrite list_elem_of_In.
  - by rewrite <- list_elem_of_In.
Qed.

(** The callback raises at the posts that read an inherited member, and
    nowhere else. *)
Lemma post_matches_cases query contentMap p :
  post_matches query contentMap p
  = if reads_inherited contentMap p then Throws TypeError
    else Returns (matched query contentMap p).
Proof.
  unfold matched, post_matches, reads_inherited.
  destruct contentMap as [cm|]; [|done].
  by destruct (property cm (slug p)) as [[|c s]| |].
Qed.

(** What the callback answers with the body [content], a string. *)
Lemma matched_with_content query contentMap p content :
  match contentMap with
  | Some cm => cm !! slug p = Some content
               ∨ (content = EmptyString ∧ property cm (slug p) = Absent)
  | None => content = EmptyString
  end →
  matched query contentMap p
  = includes (toLowerCase (title p)) query
    || includes (toLowerCase (or_empty (excerpt p))) query
    || match tags p with
       | Some ts => existsb (fun t => includes (toLowerCase t) query) ts
       | None => false
       end
    || includes (toLowerCase content) query.
Proof.
  unfold matched, post_matches. destruct contentMap as [cm|].
  - intros [Hown | [-> Habsent]].
    + unfold property. rewrite Hown. by destruct content.
    + by rewrite Habsent.
  - by intros ->.
Qed.

(** The callback decides the specification's predicate where it returns. *)
Lemma matched_spec q contentMap p :
  reads_inherited contentMap p = false →
  matched (toLowerCase q) contentMap p = true ↔ spec_matches q contentMap p.
Proof.
  intros Hsafe.
  assert (Hcontent : ∃ content,
            match contentMap with
            | Some cm => cm !! slug p = Some content
                         ∨ (content = EmptyString ∧ property cm (slug p) = Absent)
            | None => content = EmptyString
            end).
  { destruct contentMap as [cm|]; [|by exists EmptyString].
    unfold reads_inherited in Hsafe. unfold property in *.
    destruct (cm !! slug p) as [s|]; [by exists s; left|].
    exists EmptyString. right. by destruct (inherited (slug p)). }
  destruct Hcontent as [content Hcontent].
  rewrite (matched_with_content _ _ _ content Hcontent).
  unfold spec_matches, meta_matches, content_matches.
  rewrite !orb_true_iff. split.
  - intros [[[Ht|He]|Hg]|Hc].
    + by left; left.
    + apply or_empty_includes in He as [(e & He & Hinc)|Hq].
      * left; right; left. eauto.
      * left; left. rewrite Hq. apply includes_empty.
    + destruct (tags p) as [ts|] eqn:Hts; [|done].
      apply tags_match in Hg as (tg & Hin & Hinc).
      left; right; right. eauto.
    + destruct contentMap as [cm|].
      * destruct Hcontent as [Hown | [-> _]]; [right; eauto|].
        rewrite toLowerCase_empty in Hc. apply empty_includes in Hc.
        left; left. rewrite Hc. apply includes_empty.
      * subst content. rewrite toLowerCase_empty in Hc. apply empty_includes in Hc.
        left; left. rewrite Hc. apply includes_empty.
  - intros [[Ht|[(e & He & Hinc)|(ts & tg & Hts & Hin & Hinc)]]
           |(cm & body & -> & Hb & Hinc)].
    + by left; left; left.
    + left; left; right. by rewrite He.
    + left; right. rewrite Hts. apply tags_match. eauto.
    + right. destruct Hcontent as [Hown | [_ Habsent]].
      * rewrite Hb in Hown. by injection Hown as <-.
      * unfold property in Habsent. by rewrite Hb in Habsent.
Qed.

(** [searchPosts] with a query: it raises when a post reads an inherited
    member, and is the filter by the callback's answer otherwise. *)
Lemma searchPosts_query posts s contentMap :
  s ≠ EmptyString →
  searchPosts posts (Some s) contentMap
  = if existsb (reads_inherited contentMap) posts then Throws TypeError
    else Returns (List.filter (matched (toLowerCase s) contentMap) posts).
Proof.
  intros Hs. destruct s as [|c s]; [done|]. cbn [searchPosts].
  generalize (toLowerCase (String c s)). intros query.
  induction posts as [|p posts IH]; [done|].
  cbn [filter_posts existsb List.filter]. rewrite post_matches_cases.
  destruct (reads_inherited contentMap p); [done|]. cbn [bind orb].
  rewrite IH. destruct (existsb (reads_inherited contentMap) posts); [done|].
  cbn [bind]. by destruct (matched query contentMap p).
Qed.

End SearchFacts.

(** C5: a post whose slug names a member of [Object.prototype], searched
    with a content map that holds no body for it, makes [searchPosts] raise
    a [TypeError] where the specification has it return the matching posts: the
    member is read in place of the missing body, and it has no
    [toLowerCase].  The same post is searched without harm when the map is
    absent or holds a body for it, and so is a post with another slug. *)
Theorem searchPosts_inherited_slug_raises :
  (∀ L : Lowercase,
      @searchPosts L [constructor_post] (Some "notas") (Some ∅) = Throws TypeError
      ∧ @searchPosts L [fixture_post; constructor_post] (Some "notas") (Some ∅)
        = Throws TypeError)
  ∧ @searchPosts ascii_lowercase [constructor_post] (Some "notas") None
    = Returns [constructor_post]
  ∧ @searchPosts ascii_lowercase [constructor_post] (Some "notas")
      (Some {[ "constructor" := "obras" ]})
    = Returns [constructor_post]
  ∧ @searchPosts ascii_lowercase [fixture_post] (Some "notas") (Some ∅) = Returns [].
Proof.
  split; [|by vm_compute].
  intros L. split; by rewrite searchPosts_query.
Qed.

(** C6: a post that is not matched by title, excerpt or tags and has no
    body in the content map is not left out of the result when its slug
    names a member of [Object.prototype]: [searchPosts] raises a
    [TypeError].  The fixture of the specification behaves as it says: the
    post with the body "mvrv details" is found for "mvrv" when the body is
    in the map, and is not found when the map is empty or absent. *)
Theorem absent_body_inherited_slug_raises :
  fixture_content !! slug valueOf_post = None
  ∧ ¬ @meta_matches ascii_lowercase "mvrv" valueOf_post
  ∧ (∀ L : Lowercase,
        @searchPosts L [valueOf_post] (Some "mvrv") (Some fixture_content)
        = Throws TypeError)
  ∧ @searchPosts ascii_lowercase [valueOf_post] (Some "mvrv") None = Returns []
  ∧ @searchPosts ascii_lowercase [fixture_post] (Some "mvrv") (Some fixture_content)
    = Returns [fixture_post]
  ∧ @searchPosts ascii_lowercase [fixture_post] (Some "mvrv") (Some ∅) = Returns []
  ∧ @searchPosts ascii_lowercase [fixture_post] (Some "mvrv") None = Returns [].
Proof.
  split; [by vm_compute|]. split.
  { intros [Ht|[(e & He & _)|(ts & tg & Hts & _)]]; [by vm_compute in Ht|done|done]. }
  split; [|by vm_compute].
  intros L. by rewrite searchPosts_query.
Qed.

(** ** Markdown Renderer *)

Lemma Markdown_empty : Markdown EmptyString = EmptyString.
Proof. done. Qed.

(** Each of the four line terminators ends a heading and starts a line. *)
Lemma Markdown_line_terminators :
  Markdown ("# a" +:+ LS +:+ "> b" +:+ PS +:+ "## c" +:+ String CR "### d"
            +:+ String LF "e")
  = tag_class "h1" "text-2xl font-bold mt-8 mb-4" +:+ "a</h1>" +:+ LS
    +:+ tag_class "blockquote" "border-l pl-4 italic opacity-80 my-4"
    +:+ "b</blockquote>" +:+ PS
    +:+ tag_class "h2" "text-xl font-semibold mt-8 mb-3" +:+ "c</h2>" +:+ String CR EmptyString
    +:+ tag_class "h3" "text-lg font-semibold mt-6 mb-2" +:+ "d</h3>" +:+ String LF "e".
Proof. by vm_compute. Qed.


(** * Further properties of the code *)

(** ** The merger on any two series *)

Lemma merge_lists_length ps : ∀ ms,
  length ps `max` length ms ≤ length (merge_lists ps ms) ≤ length ps + length ms.
Proof.
  induction ps as [|p ps IHps]; intros ms; induction ms as [|m ms IHms].
  - simpl. lia.
  - rewrite merge_lists_nil_cons. simpl in *. lia.
  - rewrite merge_lists_cons_nil. specialize (IHps []). simpl in *. lia.
  - rewrite merge_lists_cons_cons.
    destruct (Z.abs (p_t p - m_t m) <=? window)%Z; [|destruct (p_t p <? m_t m)%Z].
    + specialize (IHps ms). simpl in *. lia.
    + specialize (IHps (m :: ms)). simpl in *. lia.
    + simpl in *. lia.
Qed.

(** X1: [mergeSeries] on two arrays returns, and the merged list is at least as
    long as the longer input and at most as long as both together: a point of
    one series is emitted alone or together with one point of the other. *)
Theorem mergeSeries_length (ps : list PricePoint) (ms : list MvrvPoint) :
  ∃ out, mergeSeries (Some ps) (Some ms) = Returns out
         ∧ length ps `max` length ms ≤ length out ≤ length ps + length ms.
Proof.
  exists (merge_lists ps ms). split; [apply mergeSeries_lists | apply merge_lists_length].
Qed.

Lemma merge_lists_aligned ps : ∀ ms,
  Forall2 within_window ps ms → merge_lists ps ms = zip_with both ps ms.
Proof.
  induction ps as [|p ps IH]; intros ms Hall; inversion Hall as [|? m ? ms' Hw Hrest]; subst.
  - reflexivity.
  - rewrite merge_lists_cons_cons. apply within_window_iff in Hw. rewrite Hw.
    simpl. f_equal. by apply IH.
Qed.

(** X2: when the two series have the same length and the points at each index
    are within twelve hours of each other, [mergeSeries] pairs them index by
    index: the result has one point per price point, each with the price
    timestamp and both values. *)
Theorem mergeSeries_aligned (ps : list PricePoint) (ms : list MvrvPoint) :
  Forall2 within_window ps ms →
  mergeSeries (Some ps) (Some ms) = Returns (zip_with both ps ms)
  ∧ length (zip_with both ps ms) = length ps.
Proof.
  intros Hall. rewrite mergeSeries_lists, merge_lists_aligned by done.
  split; [done|]. rewrite length_zip_with_l_eq; [done|]. by eapply Forall2_length.
Qed.

Lemma mergeSeries_aligned_witness :
  Forall2 within_window half_day_late at_epoch
  ∧ mergeSeries (Some half_day_late) (Some at_epoch)
    = Returns (zip_with both half_day_late at_epoch)
  ∧ length (zip_with both half_day_late at_epoch) = length half_day_late.
Proof.
  assert (H : Forall2 within_window half_day_late at_epoch).
  { repeat constructor. unfold within_window. simpl. lia. }
  split; [exact H|].
  exact (mergeSeries_aligned half_day_late at_epoch H).
Defined.


Lemma merge_lists_drain_price ps : merge_lists ps [] = map price_only ps.
Proof. induction ps as [|p ps IH]; [done|]. by rewrite merge_lists_cons_nil, IH. Qed.

Lemma merge_lists_drain_mvrv ms : merge_lists [] ms = map mvrv_only ms.
Proof. induction ms as [|m ms IH]; [done|]. by rewrite merge_lists_nil_cons, IH. Qed.

(** X3: with an empty MVRV array the merged list is the price series with [mvrv]
    undefined on every point, and with an empty price array it is the MVRV
    series with [price] undefined on every point. *)
Theorem mergeSeries_one_side_empty (ps : list PricePoint) (ms : list MvrvPoint) :
  mergeSeries (Some ps) (Some []) = Returns (map price_only ps)
  ∧ mergeSeries (Some []) (Some ms) = Returns (map mvrv_only ms).
Proof.
  rewrite !mergeSeries_lists. by rewrite merge_lists_drain_price, merge_lists_drain_mvrv.
Qed.

(** No point is lost. *)
Lemma merge_lists_keeps_prices ps : ∀ ms p,
  p ∈ ps → ∃ x, x ∈ merge_lists ps ms ∧ t x = p_t p ∧ price x = p_price p.
Proof.
  induction ps as [|p0 ps IHps]; intros ms; induction ms as [|m ms IHms]; intros p Hin.
  - by apply elem_of_nil in Hin.
  - by apply elem_of_nil in Hin.
  - rewrite merge_lists_cons_nil. apply elem_of_cons in Hin as [->|Hin].
    + exists (price_only p0). split; [apply list_elem_of_here | done].
    + destruct (IHps [] p Hin) as (x & Hx & Hprops). exists x.
      split; [by apply list_elem_of_further | done].
  - rewrite merge_lists_cons_cons.
    destruct (Z.abs (p_t p0 - m_t m) <=? window)%Z; [|destruct (p_t p0 <? m_t m)%Z].
    + apply elem_of_cons in Hin as [->|Hin].
      * exists (both p0 m). split; [apply list_elem_of_here | done].
      * destruct (IHps ms p Hin) as (x & Hx & Hprops). exists x.
        split; [by apply list_elem_of_further | done].
    + apply elem_of_cons in Hin as [->|Hin].
      * exists (price_only p0). split; [apply list_elem_of_here | done].
      * destruct (IHps (m :: ms) p Hin) as (x & Hx & Hprops). exists x.
        split; [by apply list_elem_of_further | done].
    + destruct (IHms p Hin) as (x & Hx & Hprops). exists x.
      split; [by apply list_elem_of_further | done].
Qed.

Lemma merge_lists_keeps_mvrv ps : ∀ ms m,
  m ∈ ms →
  ∃ x, x ∈ merge_lists ps ms ∧ mvrv x = m_mvrv m
       ∧ (t x = m_t m ∨ ∃ p, p ∈ ps ∧ within_window p m ∧ t x = p_t p).
Proof.
  induction ps as [|p0 ps IHps]; intros ms; induction ms as [|m0 ms IHms]; intros m Hin.
  - by apply elem_of_nil in Hin.
  - rewrite merge_lists_nil_cons. apply elem_of_cons in Hin as [->|Hin].
    + exists (mvrv_only m0). split; [apply list_elem_of_here|]. split; [done|by left].
    + destruct (IHms m Hin) as (x & Hx & Hprops). exists x.
      split; [by apply list_elem_of_further | done].
  - by apply elem_of_nil in Hin.
  - rewrite merge_lists_cons_cons.
    destruct (Z.abs (p_t p0 - m_t m0) <=? window)%Z eqn:Hw;
      [|destruct (p_t p0 <? m_t m0)%Z].
    + apply elem_of_cons in Hin as [->|Hin].
      * exists (both p0 m0). split; [apply list_elem_of_here|]. split; [done|].
        right. exists p0. split; [apply list_elem_of_here|].
        split; [by apply within_window_iff | done].
      * destruct (IHps ms m Hin) as (x & Hx & Hm & Ht). exists x.
        split; [by apply list_elem_of_further|]. split; [done|].
        destruct Ht as [Ht|(p & Hp & Hwp & Ht)]; [by left|].
        right. exists p. split; [by apply list_elem_of_further | done].
    + destruct (IHps (m0 :: ms) m Hin) as (x & Hx & Hm & Ht). exists x.
      split; [by apply list_elem_of_further|]. split; [done|].
      destruct Ht as [Ht|(p & Hp & Hwp & Ht)]; [by left|].
      right. exists p. split; [by apply list_elem_of_further | done].
    + apply elem_of_cons in Hin as [->|Hin].
      * exists (mvrv_only m0). split; [apply list_elem_of_here|]. split; [done|by left].
      * destruct (IHms m Hin) as (x & Hx & Hprops). exists x.
        split; [by apply list_elem_of_further | done].
Qed.

(** X4: [mergeSeries] drops nothing: every price point is found in the result
    with its own timestamp and price, and every MVRV value is found in the
    result, under its own timestamp or under the timestamp of a price point
    within twelve hours of it. *)
Theorem mergeSeries_keeps_every_point (ps : list PricePoint) (ms : list MvrvPoint) :
  ∃ out, mergeSeries (Some ps) (Some ms) = Returns out
    ∧ (∀ p, p ∈ ps → ∃ x, x ∈ out ∧ t x = p_t p ∧ price x = p_price p)
    ∧ (∀ m, m ∈ ms →
         ∃ x, x ∈ out ∧ mvrv x = m_mvrv m
              ∧ (t x = m_t m ∨ ∃ p, p ∈ ps ∧ within_window p m ∧ t x = p_t p)).
Proof.
  exists (merge_lists ps ms). split; [apply mergeSeries_lists|]. split.
  - intros p. apply merge_lists_keeps_prices.
  - intros m. apply merge_lists_keeps_mvrv.
Qed.

(** ** The order on numbers, and clamping *)

Lemma SFcompare_antisym (x y : spec_float) :
  SFcompare y x = option_map CompOpp (SFcompare x y).
Proof.
  destruct x as [sx|sx| |sx mx ex], y as [sy|sy| |sy my ey]; simpl;
    try reflexivity; try (by destruct sx); try (by destruct sy);
    try (by destruct sx, sy).
  destruct sx, sy; simpl; try reflexivity; f_equal;
    rewrite (Z.compare_antisym ex ey);
    destruct (ex ?= ey)%Z eqn:He; simpl; try reflexivity;
    rewrite (Pos.compare_cont_antisym _ _ Eq); simpl;
    by destruct (Pos.compare_cont Eq mx my).
Qed.

Lemma SFcompare_refl (x : spec_float) :
  SFcompare x x = match x with S754_nan => None | _ => Some Eq end.
Proof.
  destruct x as [s|s| |s m e]; simpl; try reflexivity; try (by destruct s).
  destruct s; rewrite Z.compare_refl, Pos.compare_cont_refl; reflexivity.
Qed.

Lemma is_nan_spec (x : float) :
  PrimFloat.is_nan x = match Prim2SF x with S754_nan => true | _ => false end.
Proof.
  unfold PrimFloat.is_nan. rewrite FloatAxioms.eqb_spec. unfold SFeqb.
  rewrite SFcompare_refl. by destruct (Prim2SF x).
Qed.

Lemma ltb_leb (x y : float) : (x <? y)%float = true → (x <=? y)%float = true.
Proof.
  rewrite ltb_spec, leb_spec. unfold SFltb, SFleb.
  by destruct (SFcompare (Prim2SF x) (Prim2SF y)) as [[]|].
Qed.

Lemma ltb_asym (x y : float) : (x <? y)%float = true → (y <? x)%float = false.
Proof.
  rewrite !ltb_spec. unfold SFltb. rewrite (SFcompare_antisym (Prim2SF x) (Prim2SF y)).
  by destruct (SFcompare (Prim2SF x) (Prim2SF y)) as [[]|].
Qed.

Lemma SFcompare_None (x y : spec_float) :
  SFcompare x y = None → x = S754_nan ∨ y = S754_nan.
Proof.
  destruct x as [sx|sx| |sx mx ex], y as [sy|sy| |sy my ey]; simpl; try discriminate; auto.
Qed.

Lemma not_ltb_leb (x y : float) :
  PrimFloat.is_nan x = false → PrimFloat.is_nan y = false →
  (y <? x)%float = false → (x <=? y)%float = true.
Proof.
  rewrite !is_nan_spec, ltb_spec, leb_spec. unfold SFltb, SFleb.
  rewrite (SFcompare_antisym (Prim2SF x) (Prim2SF y)).
  intros Hx Hy.
  destruct (SFcompare (Prim2SF x) (Prim2SF y)) as [[]|] eqn:Hc; simpl; try done.
  apply SFcompare_None in Hc as [Hc|Hc]; rewrite Hc in *; done.
Qed.

Lemma leb_not_nan (x y : float) :
  (x <=? y)%float = true → PrimFloat.is_nan x = false ∧ PrimFloat.is_nan y = false.
Proof.
  rewrite !is_nan_spec, leb_spec. unfold SFleb.
  destruct (Prim2SF x), (Prim2SF y); simpl; try done.
Qed.

Lemma leb_not_ltb (x y : float) : (x <=? y)%float = true → (y <? x)%float = false.
Proof.
  rewrite ltb_spec, leb_spec. unfold SFltb, SFleb.
  rewrite (SFcompare_antisym (Prim2SF x) (Prim2SF y)).
  by destruct (SFcompare (Prim2SF x) (Prim2SF y)) as [[]|].
Qed.

Lemma leb_refl (x : float) : PrimFloat.is_nan x = false → (x <=? x)%float = true.
Proof.
  intros Hx. apply not_ltb_leb; try done.
  destruct (x <? x)%float eqn:H; [|done]. by rewrite (ltb_asym _ _ H) in H.
Qed.

(** Without NaN, [Math.max] is an upper bound that is one of its arguments. *)
Lemma Math_max_bounds (a b : float) :
  PrimFloat.is_nan a = false → PrimFloat.is_nan b = false →
  (a <=? Math.max a b)%float = true ∧ (b <=? Math.max a b)%float = true
  ∧ (Math.max a b = a ∨ Math.max a b = b).
Proof.
  intros Ha Hb. unfold Math.max. rewrite Ha, Hb. cbn [orb].
  destruct (a <? b)%float eqn:Hab.
  - split; [by apply ltb_leb|]. split; [by apply leb_refl | by right].
  - destruct (b <? a)%float eqn:Hba.
    + split; [by apply leb_refl|]. split; [by apply ltb_leb | by left].
    + assert (Hle1 : (a <=? b)%float = true) by by apply not_ltb_leb.
      assert (Hle2 : (b <=? a)%float = true) by by apply not_ltb_leb.
      destruct (PrimFloat.classify a);
        (split; [first [by apply leb_refl | done]|];
         split; [first [by apply leb_refl | done] | auto]).
Qed.

Lemma Math_min_bounds (a b : float) :
  PrimFloat.is_nan a = false → PrimFloat.is_nan b = false →
  (Math_min a b <=? a)%float = true ∧ (Math_min a b <=? b)%float = true
  ∧ (Math_min a b = a ∨ Math_min a b = b).
Proof.
  intros Ha Hb. unfold Math_min. rewrite Ha, Hb. cbn [orb].
  destruct (a <? b)%float eqn:Hab.
  - split; [by apply leb_refl|]. split; [by apply ltb_leb | by left].
  - destruct (b <? a)%float eqn:Hba.
    + split; [by apply ltb_leb|]. split; [by apply leb_refl | by right].
    + assert (Hle1 : (a <=? b)%float = true) by by apply not_ltb_leb.
      assert (Hle2 : (b <=? a)%float = true) by by apply not_ltb_leb.
      destruct (PrimFloat.classify a);
        (split; [first [by apply leb_refl | done]|];
         split; [first [by apply leb_refl | done] | auto]).
Qed.

Lemma Math_max_nan_l b : Math.max nan b = nan.
Proof. reflexivity. Qed.

Lemma Math_max_nan_r a : PrimFloat.is_nan a = false → Math.max a nan = nan.
Proof. intros Ha. unfold Math.max. by rewrite Ha. Qed.

(** [Math.max(lo, Math.min(hi, x))] with [lo <= hi] and a proper number [x]
    lies between [lo] and [hi]. *)
Lemma clamp_bounds (lo hi x : float) :
  (lo <=? hi)%float = true → PrimFloat.is_nan x = false →
  (lo <=? Math.max lo (Math_min hi x))%float = true
  ∧ (Math.max lo (Math_min hi x) <=? hi)%float = true.
Proof.
  intros Hlohi Hx. destruct (leb_not_nan _ _ Hlohi) as [Hlo Hhi].
  destruct (Math_min_bounds hi x Hhi Hx) as (Hm1 & Hm2 & Hm).
  assert (Hmn : PrimFloat.is_nan (Math_min hi x) = false).
  { by destruct Hm as [-> | ->]. }
  destruct (Math_max_bounds lo (Math_min hi x) Hlo Hmn) as (Hv1 & Hv2 & Hv).
  split; [done|]. by destruct Hv as [-> | ->].
Qed.

Lemma number_or_0_not_nan value : PrimFloat.is_nan (number_or_0 value) = false.
Proof.
  destruct value as [x|]; [|done]. unfold number_or_0.
  destruct (PrimFloat.is_nan x) eqn:Hx; [done|]. cbn [orb].
  by destruct (PrimFloat.is_zero x).
Qed.

(** X5: whatever [value] is (absent, NaN, negative, above 100), the width
    [FNGBar] draws lies between 0 and 100 percent, and the bar is amber exactly
    when that width is from 30 to 75, red otherwise. *)
Theorem FNGBar_within_bounds (value : option float) :
  (0 <=? bar_width (FNGBar value))%float = true
  ∧ (bar_width (FNGBar value) <=? 100)%float = true
  ∧ (bar_color (FNGBar value) = "#f59e0b"
     ↔ (30 <=? bar_width (FNGBar value))%float = true
       ∧ (bar_width (FNGBar value) <=? 75)%float = true)
  ∧ (bar_color (FNGBar value) = "#f59e0b" ∨ bar_color (FNGBar value) = "#dc2626").
Proof.
  destruct (clamp_bounds 0 100 (number_or_0 value) eq_refl (number_or_0_not_nan value))
    as [Hlo Hhi].
  unfold FNGBar. cbn [bar_width bar_color].
  set (v := Math.max 0 (Math_min 100 (number_or_0 value))) in *.
  split; [done|]. split; [done|].
  destruct (leb_not_nan _ _ Hlo) as [_ Hv].
  destruct (v <? 30)%float eqn:Hlt.
  - split; [|by right]. split; [done|]. intros [H30 _].
    by rewrite (leb_not_ltb _ _ H30) in Hlt.
  - assert (H30 : (30 <=? v)%float = true) by by apply not_ltb_leb.
    destruct (v <=? 75)%float eqn:H75.
    + split; [|by left]. done.
    + split; [|by right]. split; [done|]. by intros [_ ?].
Qed.

(** ** The mock series *)

Lemma oneDay_value : oneDay = 86400000%Z.
Proof. reflexivity. Qed.

Lemma mock_price_points_stamps now random days i n price :
  map p_t (mock_price_points now random days i n price)
  = progression (now - (Z.of_nat days - 1 - Z.of_nat i) * oneDay) oneDay n.
Proof.
  revert i price. induction n as [|n IH]; intros i price; [done|].
  cbn [mock_price_points map]. rewrite IH, progression_S. cbn [p_t].
  rewrite oneDay_value. f_equal; [lia|]. f_equal. lia.
Qed.

Lemma mock_mvrv_points_stamps now random len i n mvrv :
  map m_t (mock_mvrv_points now random len i n mvrv)
  = progression (now - (Z.of_nat len - 1 - Z.of_nat i) * oneDay) oneDay n.
Proof.
  revert i mvrv. induction n as [|n IH]; intros i mvrv; [done|].
  cbn [mock_mvrv_points map]. rewrite IH, progression_S. cbn [m_t].
  rewrite oneDay_value. f_equal; [lia|]. f_equal. lia.
Qed.

Lemma length_mock_price_points now random days i n price :
  length (mock_price_points now random days i n price) = n.
Proof. revert i price. induction n as [|n IH]; intros; simpl; [done|]. by rewrite IH. Qed.

Lemma length_mock_mvrv_points now random len i n mvrv :
  length (mock_mvrv_points now random len i n mvrv) = n.
Proof. revert i mvrv. induction n as [|n IH]; intros; simpl; [done|]. by rewrite IH. Qed.

Lemma progression_Sorted (R : Z → Z → Prop) a d n :
  (∀ x, R x (x + d)%Z) → Sorted R (progression a d n).
Proof.
  intros HR. revert a. induction n as [|n IH]; intros a; [constructor|].
  rewrite progression_S. constructor; [apply IH|].
  destruct n; [constructor|]. rewrite progression_S. constructor. apply HR.
Qed.

Lemma last_progression a d n :
  last (progression a d (S n)) = Some (a + Z.of_nat n * d)%Z.
Proof.
  revert a. induction n as [|n IH]; intros a.
  - simpl. f_equal; lia.
  - rewrite progression_S. rewrite last_cons, IH. f_equal; lia.
Qed.

Lemma mock_price_points_numbers now random days i n price :
  Forall (fun p => is_number (p_price p) = true)
         (mock_price_points now random days i n price).
Proof.
  revert i price. induction n as [|n IH]; intros i price; simpl; constructor; [done|apply IH].
Qed.

Lemma mock_price_series_facts (now : Z) (random : nat → float) (days : nat) :
  let series := generateMockPriceSeries now random days in
  length series = days
  ∧ map p_t series = progression (now - (Z.of_nat days - 1) * oneDay) oneDay days
  ∧ Sorted (fun a b => b = (a + oneDay)%Z) (map p_t series)
  ∧ (0 < days → last (map p_t series) = Some now)
  ∧ Forall (fun p => is_number (p_price p) = true) series.
Proof.
  intros series. subst series. unfold generateMockPriceSeries.
  assert (Hst := mock_price_points_stamps now random days 0 days 68000).
  replace (now - (Z.of_nat days - 1 - Z.of_nat 0) * oneDay)%Z
    with (now - (Z.of_nat days - 1) * oneDay)%Z in Hst by lia.
  split; [apply length_mock_price_points|]. split; [done|].
  split; [rewrite Hst; by apply progression_Sorted|].
  split.
  - intros Hd. rewrite Hst. destruct days as [|d]; [lia|].
    rewrite last_progression. f_equal. lia.
  - apply mock_price_points_numbers.
Qed.

(** X6: [generateMockPriceSeries] builds [days] points, one per day, ascending,
    the last one stamped [now], each with a numeric price. *)
Theorem generateMockPriceSeries_shape (now : Z) (random : nat → float) (days : nat) :
  let series := generateMockPriceSeries now random days in
  length series = days
  ∧ map p_t series = progression (now - (Z.of_nat days - 1) * oneDay) oneDay days
  ∧ Sorted (fun a b => b = (a + oneDay)%Z) (map p_t series)
  ∧ (0 < days → last (map p_t series) = Some now)
  ∧ Forall (fun p => is_number (p_price p) = true) series.
Proof. apply mock_price_series_facts. Qed.

Lemma mock_length_pos anchorLength : 0 < mock_length anchorLength.
Proof.
  unfold mock_length. destruct anchorLength as [n|]; [|lia].
  destruct (Z.ltb_spec 0 n); lia.
Qed.

Lemma last_mock_mvrv_points now random len i n mvrv :
  0 < n → is_Some (last (mock_mvrv_points now random len i n mvrv)).
Proof.
  intros Hn. apply not_eq_None_Some. rewrite last_None. intros Hnil.
  apply (f_equal length) in Hnil. rewrite length_mock_mvrv_points in Hnil. simpl in Hnil. lia.
Qed.

(** The generator returns: its length guard keeps the array non-empty, so
    reading the last element never fails. *)
Lemma generateMockMVRVSeries_returns now random anchorLength :
  ∃ mock, generateMockMVRVSeries now random anchorLength = Returns mock
    ∧ mock_series mock
      = mock_mvrv_points now random (mock_length anchorLength) 0 (mock_length anchorLength) 2.1
    ∧ ∃ p, last (mock_series mock) = Some p ∧ mock_current mock = m_mvrv p.
Proof.
  unfold generateMockMVRVSeries.
  destruct (last_mock_mvrv_points now random (mock_length anchorLength) 0
              (mock_length anchorLength) 2.1 (mock_length_pos anchorLength)) as [p Hp].
  rewrite Hp. eexists. split; [reflexivity|]. split; [reflexivity|]. eauto.
Qed.

Lemma mock_mvrv_series_facts (now : Z) (random : nat → float)
    (anchorLength : option Z) :
  ∃ mock, generateMockMVRVSeries now random anchorLength = Returns mock
    ∧ length (mock_series mock)
      = match anchorLength with
        | Some n => if (0 <? n)%Z then Z.to_nat n else 180
        | None => 180
        end
    ∧ mock_series mock ≠ []
    ∧ (∃ p, last (mock_series mock) = Some p ∧ mock_current mock = m_mvrv p
            ∧ m_t p = now)
    ∧ Sorted (fun a b => b = (a + oneDay)%Z) (map m_t (mock_series mock)).
Proof.
  destruct (generateMockMVRVSeries_returns now random anchorLength)
    as (mock & Hret & Hseries & p & Hlast & Hcur).
  exists mock. split; [done|].
  pose proof (mock_length_pos anchorLength) as Hpos.
  assert (Hlen : length (mock_series mock) = mock_length anchorLength).
  { by rewrite Hseries, length_mock_mvrv_points. }
  assert (Hst : map m_t (mock_series mock)
                = progression (now - (Z.of_nat (mock_length anchorLength) - 1) * oneDay)
                    oneDay (mock_length anchorLength)).
  { rewrite Hseries, mock_mvrv_points_stamps. f_equal. lia. }
  split; [done|]. split.
  { intros Hnil. rewrite Hnil in Hlen. simpl in Hlen. lia. }
  split.
  - exists p. split; [done|]. split; [done|].
    assert (Hl : last (map m_t (mock_series mock)) = Some (m_t p)).
    { change (last (m_t <$> mock_series mock) = Some (m_t p)). by rewrite fmap_last, Hlast. }
    rewrite Hst in Hl. destruct (mock_length anchorLength) as [|n]; [lia|].
    rewrite last_progression in Hl. injection Hl as Hl. lia.
  - rewrite Hst. by apply progression_Sorted.
Qed.

(** X7: for an argument that is absent, no number, or an integer below 2 ^ 32
    (the code passes the length of an array), [generateMockMVRVSeries] returns:
    the series has [anchorLength] points when that is positive and 180
    otherwise, one per day, the last one stamped [now], and [current] is the
    MVRV of the last point. A number with a fraction or from 2 ^ 32 on is not
    covered. *)
Theorem generateMockMVRVSeries_shape (now : Z) (random : nat → float)
    (anchorLength : option Z) :
  (∀ n, anchorLength = Some n → (n < 2 ^ 32)%Z) →
  ∃ mock, generateMockMVRVSeries now random anchorLength = Returns mock
    ∧ length (mock_series mock)
      = match anchorLength with
        | Some n => if (0 <? n)%Z then Z.to_nat n else 180
        | None => 180
        end
    ∧ mock_series mock ≠ []
    ∧ (∃ p, last (mock_series mock) = Some p ∧ mock_current mock = m_mvrv p
            ∧ m_t p = now)
    ∧ Sorted (fun a b => b = (a + oneDay)%Z) (map m_t (mock_series mock)).
Proof. intros _. apply mock_mvrv_series_facts. Qed.

Lemma generateMockMVRVSeries_shape_witness :
  (∀ n, Some 3%Z = Some n → (n < 2 ^ 32)%Z)
  ∧ ∃ mock, generateMockMVRVSeries 1700000000000 steady (Some 3%Z) = Returns mock
      ∧ length (mock_series mock) = 3
      ∧ mock_series mock ≠ []
      ∧ (∃ p, last (mock_series mock) = Some p ∧ mock_current mock = m_mvrv p
              ∧ m_t p = 1700000000000%Z)
      ∧ Sorted (fun a b => b = (a + oneDay)%Z) (map m_t (mock_series mock)).
Proof.
  assert (Hlen : ∀ n, Some 3%Z = Some n → (n < 2 ^ 32)%Z) by (intros n [= <-]; lia).
  split; [exact Hlen|].
  exact (generateMockMVRVSeries_shape 1700000000000 steady (Some 3%Z) Hlen).
Defined.

Lemma mock_points_aligned now1 now2 r1 r2 days i n price mvrv :
  (Z.abs (now1 - now2) <= 43200000)%Z →
  Forall2 within_window (mock_price_points now1 r1 days i n price)
                        (mock_mvrv_points now2 r2 days i n mvrv).
Proof.
  intros Hclock. revert i price mvrv.
  induction n as [|n IH]; intros i price mvrv; simpl; constructor; [|apply IH].
  unfold within_window. cbn [p_t m_t]. lia.
Qed.

Lemma zip_with_both_numbers (ps : list PricePoint) (ms : list MvrvPoint) :
  Forall (fun p => is_number (p_price p) = true) ps →
  Forall (fun m => is_number (m_mvrv m) = true) ms →
  Forall (fun x => is_number (price x) = true ∧ is_number (mvrv x) = true)
         (zip_with both ps ms).
Proof.
  intros Hps. revert ms. induction Hps as [|p ps Hp Hps IH]; intros ms Hms; [constructor|].
  destruct Hms as [|m ms Hm Hms]; [constructor|].
  simpl. constructor; [done|]. by apply IH.
Qed.

Lemma mock_mvrv_points_numbers now random len i n mvrv :
  Forall (fun m => is_number (m_mvrv m) = true)
         (mock_mvrv_points now random len i n mvrv).
Proof.
  revert i mvrv. induction n as [|n IH]; intros i mvrv; simpl; constructor; [done|apply IH].
Qed.

Lemma map_t_zip_with_both (ps : list PricePoint) (ms : list MvrvPoint) :
  length ps = length ms → map t (zip_with both ps ms) = map p_t ps.
Proof.
  revert ms. induction ps as [|p ps IH]; intros [|m ms] Hlen; simpl in *; try done.
  f_equal. apply IH. lia.
Qed.

(** X8: the mock price series and a mock MVRV series of the same length,
    generated at most twelve hours apart, merge point for point: the result has
    [days] points, bears the timestamps of the price series, and every point has
    a numeric price and a numeric MVRV. *)
Theorem mergeSeries_of_mock_series
    (now1 now2 : Z) (random1 random2 : nat → float) (days : nat) :
  0 < days →
  (Z.abs (now1 - now2) <= 43200000)%Z →
  ∃ mock out,
    generateMockMVRVSeries now2 random2 (Some (Z.of_nat days)) = Returns mock
    ∧ mergeSeries (Some (generateMockPriceSeries now1 random1 days))
                  (Some (mock_series mock)) = Returns out
    ∧ length out = days
    ∧ map t out = map p_t (generateMockPriceSeries now1 random1 days)
    ∧ Forall (fun x => is_number (price x) = true ∧ is_number (mvrv x) = true) out.
Proof.
  intros Hdays Hclock.
  destruct (generateMockMVRVSeries_returns now2 random2 (Some (Z.of_nat days)))
    as (mock & Hret & Hseries & _).
  assert (Hlen : mock_length (Some (Z.of_nat days)) = days).
  { unfold mock_length. destruct (Z.ltb_spec 0 (Z.of_nat days)); lia. }
  rewrite Hlen in Hseries.
  exists mock, (zip_with both (generateMockPriceSeries now1 random1 days) (mock_series mock)).
  split; [done|].
  assert (Hall : Forall2 within_window (generateMockPriceSeries now1 random1 days)
                                       (mock_series mock)).
  { rewrite Hseries. by apply mock_points_aligned. }
  assert (Hlens : length (generateMockPriceSeries now1 random1 days)
                  = length (mock_series mock)) by by eapply Forall2_length.
  split; [by rewrite mergeSeries_lists, merge_lists_aligned|].
  split.
  { rewrite length_zip_with_l_eq by done. apply length_mock_price_points. }
  split; [by apply map_t_zip_with_both|].
  apply zip_with_both_numbers.
  - apply mock_price_points_numbers.
  - rewrite Hseries. apply mock_mvrv_points_numbers.
Qed.

Lemma mergeSeries_of_mock_series_witness :
  0 < 3
  ∧ (Z.abs (1700000000000 - 1700003600000) <= 43200000)%Z
  ∧ ∃ mock out,
      generateMockMVRVSeries 1700003600000 steady (Some (Z.of_nat 3)) = Returns mock
      ∧ mergeSeries (Some (generateMockPriceSeries 1700000000000 steady 3))
                    (Some (mock_series mock)) = Returns out
      ∧ length out = 3
      ∧ map t out = map p_t (generateMockPriceSeries 1700000000000 steady 3)
      ∧ Forall (fun x => is_number (price x) = true ∧ is_number (mvrv x) = true) out.
Proof.
  assert (Hdays : 0 < 3) by lia.
  assert (Hnow : (Z.abs (1700000000000 - 1700003600000) <= 43200000)%Z) by lia.
  split; [exact Hdays|]. split; [exact Hnow|].
  exact (mergeSeries_of_mock_series 1700000000000 1700003600000 steady steady 3 Hdays Hnow).
Defined.


(** ** The ticks of a series that starts after the epoch *)

Lemma last_map_p_t (l : list PricePoint) (d : PricePoint) :
  p_t (List.last l d) = List.last (map p_t l) (p_t d).
Proof.
  induction l as [|x l IH]; [done|]. destruct l as [|y l]; [done|]. exact IH.
Qed.

Lemma List_last_stdpp {A} (l : list A) (d x : A) :
  last l = Some x → List.last l d = x.
Proof.
  induction l as [|y l IH]; [done|]. destruct l as [|z l]; simpl in *; [congruence|].
  intros H. by apply IH.
Qed.

Lemma ticks_cover (first : PricePoint) (rest : list PricePoint) :
  let start := p_t first in
  let end_ := p_t (List.last (first :: rest) first) in
  let a := (start - start mod oneDay)%Z in
  (0 <= start)%Z →
  (start <= end_)%Z →
  ∃ n, compute10DayTicks (Some (first :: rest)) = Returns (progression a step (S n))
       ∧ (a <= start)%Z
       ∧ (a + Z.of_nat n * step <= end_ + 1 < a + Z.of_nat n * step + step)%Z
       ∧ ((end_ - start) / step <= Z.of_nat n <= (end_ - start + oneDay) / step)%Z.
Proof.
  intros start end_ a Hstart Hend.
  assert (Hday : (0 < oneDay)%Z) by (unfold oneDay; lia).
  pose proof step_pos as Hstep.
  pose proof (Z.mod_pos_bound start oneDay Hday) as Hmod.
  rewrite compute10DayTicks_cons. fold start.
  rewrite (Z.rem_mod_nonneg start oneDay) by lia. fold a. fold end_.
  assert (Hq : (0 <= (end_ + 1 - a) / step)%Z) by (apply Z.div_pos; unfold a; lia).
  exists (Z.to_nat ((end_ + 1 - a) / step)).
  assert (Hs : strides a end_ step = S (Z.to_nat ((end_ + 1 - a) / step))).
  { unfold strides. lia. }
  rewrite Hs. split; [done|]. split; [unfold a; lia|].
  rewrite Z2Nat.id by done.
  pose proof (Z.mul_div_le (end_ + 1 - a) step Hstep).
  pose proof (Z.mul_succ_div_gt (end_ + 1 - a) step Hstep).
  split; [lia|]. split.
  - apply Z.div_le_mono; [done|]. unfold a. lia.
  - apply Z.div_le_mono; [done|]. unfold a. lia.
Qed.

(** X9: for a series that starts at or after the epoch and does not end before
    it starts, [compute10DayTicks] returns ticks ten days apart that start at
    the midnight at or before the first point and go on up to the last tick that
    is not after [end + 1]; their number is fixed by the span of the series to
    within one. *)
Theorem compute10DayTicks_cover (first : PricePoint) (rest : list PricePoint) :
  let start := p_t first in
  let end_ := p_t (List.last (first :: rest) first) in
  let a := (start - start mod oneDay)%Z in
  (0 <= start)%Z →
  (start <= end_)%Z →
  ∃ n, compute10DayTicks (Some (first :: rest)) = Returns (progression a step (S n))
       ∧ (a <= start)%Z
       ∧ (a + Z.of_nat n * step <= end_ + 1 < a + Z.of_nat n * step + step)%Z
       ∧ ((end_ - start) / step <= Z.of_nat n <= (end_ - start + oneDay) / step)%Z.
Proof. apply ticks_cover. Qed.

Lemma compute10DayTicks_cover_witness :
  (0 <= 0)%Z
  ∧ (0 <= 86400000)%Z
  ∧ ∃ n, compute10DayTicks (Some daily_price) = Returns (progression 0 step (S n))
         ∧ (0 <= 0)%Z
         ∧ (0 + Z.of_nat n * step <= 86400000 + 1 < 0 + Z.of_nat n * step + step)%Z
         ∧ ((86400000 - 0) / step <= Z.of_nat n <= (86400000 - 0 + oneDay) / step)%Z.
Proof.
  assert (Hstart : (0 <= 0)%Z) by lia.
  assert (Hend : (0 <= 86400000)%Z) by lia.
  split; [exact Hstart|]. split; [exact Hend|].
  exact (compute10DayTicks_cover {| p_t := 0; p_price := VNum 68000 |}
           [{| p_t := 86400000; p_price := VNum 68100 |}] Hstart Hend).
Defined.

(** X10: on the mock price series of [days] daily points (whose first point is
    not before the epoch) [compute10DayTicks] returns, with between (days - 1) /
    10 + 1 and days / 10 + 1 ticks. *)
Theorem compute10DayTicks_of_mock_series (now : Z) (random : nat → float) (days : nat) :
  0 < days →
  ((Z.of_nat days - 1) * oneDay <= now)%Z →
  ∃ ticks, compute10DayTicks (Some (generateMockPriceSeries now random days)) = Returns ticks
    ∧ (days - 1) / 10 + 1 ≤ length ticks ≤ days / 10 + 1.
Proof.
  intros Hdays Hnow.
  destruct (mock_price_series_facts now random days) as (Hlen & Hst & _ & Hlast & _).
  specialize (Hlast Hdays).
  destruct (generateMockPriceSeries now random days) as [|first rest] eqn:Hseries;
    [simpl in Hlen; lia|].
  assert (Hfirst : p_t first = (now - (Z.of_nat days - 1) * oneDay)%Z).
  { destruct days as [|d]; [lia|]. rewrite progression_S in Hst. simpl in Hst. congruence. }
  assert (Hend : p_t (List.last (first :: rest) first) = now).
  { rewrite last_map_p_t. by apply List_last_stdpp. }
  assert (Hspan : (0 <= (Z.of_nat days - 1) * oneDay)%Z) by (unfold oneDay; lia).
  pose proof (ticks_cover first rest) as Hcover. cbv zeta in Hcover.
  destruct Hcover as (n & Hret & _ & _ & Hn1 & Hn2); [lia | lia |].
  eexists. split; [exact Hret|]. rewrite length_progression.
  rewrite Hend, Hfirst in Hn1, Hn2.
  assert (Hday : oneDay = 86400000%Z) by reflexivity.
  assert (Hstepv : step = (10 * oneDay)%Z) by reflexivity.
  replace (now - (now - (Z.of_nat days - 1) * oneDay))%Z
    with ((Z.of_nat days - 1) * oneDay)%Z in Hn1 by lia.
  replace (now - (now - (Z.of_nat days - 1) * oneDay) + oneDay)%Z
    with (Z.of_nat days * oneDay)%Z in Hn2 by lia.
  rewrite Hstepv in Hn1, Hn2.
  rewrite Z.div_mul_cancel_r in Hn1, Hn2 by lia.
  replace (Z.of_nat days - 1)%Z with (Z.of_nat (days - 1)) in Hn1 by lia.
  change 10%Z with (Z.of_nat 10) in Hn1, Hn2.
  rewrite <- Nat2Z.inj_div in Hn1, Hn2. lia.
Qed.

Lemma compute10DayTicks_of_mock_series_witness :
  0 < 30
  ∧ ((Z.of_nat 30 - 1) * oneDay <= 1700000000000)%Z
  ∧ ∃ ticks,
      compute10DayTicks (Some (generateMockPriceSeries 1700000000000 steady 30))
      = Returns ticks
      ∧ (30 - 1) / 10 + 1 ≤ length ticks ≤ 30 / 10 + 1.
Proof.
  assert (Hdays : 0 < 30) by lia.
  assert (Hnow : ((Z.of_nat 30 - 1) * oneDay <= 1700000000000)%Z)
    by (unfold oneDay; lia).
  split; [exact Hdays|]. split; [exact Hnow|].
  exact (compute10DayTicks_of_mock_series 1700000000000 steady 30 Hdays Hnow).
Defined.


(** ** The clamps of the mock series *)

(** [Math.max(lo, x)] is never below [lo], whatever [x] is. *)
Lemma Math_max_not_below (lo x : float) :
  PrimFloat.is_nan lo = false → (Math.max lo x <? lo)%float = false.
Proof.
  intros Hlo. destruct (PrimFloat.is_nan x) eqn:Hx.
  - unfold Math.max. rewrite Hlo, Hx. cbn [orb].
    rewrite ltb_spec. change (Prim2SF nan) with S754_nan. reflexivity.
  - destruct (Math_max_bounds lo x Hlo Hx) as (H1 & _ & _). by apply leb_not_ltb.
Qed.

(** [Math.max(lo, Math.min(hi, x))] is never above [hi] either. *)
Lemma clamp_not_above (lo hi x : float) :
  (lo <=? hi)%float = true → (hi <? Math.max lo (Math_min hi x))%float = false.
Proof.
  intros Hlohi. destruct (PrimFloat.is_nan x) eqn:Hx.
  - destruct (leb_not_nan _ _ Hlohi) as [Hlo Hhi].
    assert (Hmin : Math_min hi x = nan).
    { unfold Math_min. rewrite Hx. by rewrite orb_true_r. }
    rewrite Hmin, Math_max_nan_r by done.
    rewrite ltb_spec. change (Prim2SF nan) with S754_nan.
    unfold SFltb. by destruct (Prim2SF hi).
  - destruct (clamp_bounds lo hi x Hlohi Hx) as [_ H]. by apply leb_not_ltb.
Qed.

(** X11: whatever [Math.random] answers, every mock price is of type number and
    does not compare below 15000, and every mock MVRV value, and the [current]
    value reported with the series, is of type number and compares neither below
    0.6 nor above 5. *)
Theorem mock_series_values_clamped (now : Z) (random : nat → float) (n : nat)
    (anchorLength : option Z) :
  Forall (fun p => ∃ v, p_price p = VNum v ∧ (v <? 15000)%float = false)
         (generateMockPriceSeries now random n)
  ∧ ∃ mock, generateMockMVRVSeries now random anchorLength = Returns mock
      ∧ Forall (fun m => ∃ v, m_mvrv m = VNum v
                              ∧ (v <? 0.6)%float = false ∧ (5 <? v)%float = false)
               (mock_series mock)
      ∧ ∃ v, mock_current mock = VNum v
             ∧ (v <? 0.6)%float = false ∧ (5 <? v)%float = false.
Proof.
  split.
  - unfold generateMockPriceSeries. generalize 68000%float. generalize 0 at 1.
    generalize n at 1.
    induction n as [|k IH]; intros days i price; simpl; constructor; [|apply IH].
    eexists. split; [reflexivity|]. by apply Math_max_not_below.
  - destruct (generateMockMVRVSeries_returns now random anchorLength)
      as (mock & Hret & Hseries & p & Hlast & Hcur).
    exists mock. split; [done|].
    assert (Hall : Forall (fun m => ∃ v, m_mvrv m = VNum v
                              ∧ (v <? 0.6)%float = false ∧ (5 <? v)%float = false)
                          (mock_series mock)).
    { rewrite Hseries. generalize 2.1%float. generalize 0.
      generalize (mock_length anchorLength) at 2.
      generalize (mock_length anchorLength).
      intros len k. induction k as [|k IH]; intros i mvrv; simpl; constructor; [|apply IH].
      eexists. split; [reflexivity|]. split.
      - by apply Math_max_not_below.
      - by apply clamp_not_above. }
    split; [done|].
    rewrite Hcur. rewrite Forall_forall in Hall. apply Hall.
    apply list_elem_of_In. apply last_Some_elem_of in Hlast. by apply list_elem_of_In.
Qed.

(** ** The domain of the MVRV axis *)

Lemma fold_domain_step_filter (l : list MvrvPoint) acc :
  fold_left domain_step l acc = fold_left domain_step (List.filter numeric_point l) acc.
Proof.
  revert acc. induction l as [|p l IH]; intros acc; [done|].
  simpl. unfold numeric_point at 1.
  destruct (is_number (m_mvrv p)) eqn:Hp.
  - simpl. apply IH.
  - rewrite <- IH. f_equal. unfold domain_step. by destruct (m_mvrv p).
Qed.

(** The domain as a function of the folded [(mn, mx)]. *)
Lemma computeMvrvDomain_fold (l : list MvrvPoint) :
  computeMvrvDomain (Some l)
  = let (mn, mx) := fold_left domain_step l (infinity, neg_infinity) in
    if negb (isFinite mn) || negb (isFinite mx) then (0, 4)%float
    else
      let pad := Math.max 0.05 ((mx - mn) * 0.1)%float in
      (Math.max 0 (Math.floor ((mn - pad) * 10) / 10)%float,
       (Math.ceil ((mx + pad) * 10) / 10)%float).
Proof. by destruct l. Qed.

(** X12: points whose [mvrv] is not a number have no influence on the domain:
    [computeMvrvDomain] gives the same answer on a series and on the series with
    those points removed. *)
Theorem computeMvrvDomain_ignores_non_numbers (l : list MvrvPoint) :
  computeMvrvDomain (Some l)
  = computeMvrvDomain (Some (List.filter (fun p => is_number (m_mvrv p)) l)).
Proof.
  rewrite !computeMvrvDomain_fold. by rewrite (fold_domain_step_filter l).
Qed.

(** X13: the lower bound of the domain [computeMvrvDomain] returns never
    compares below zero, for any argument. *)
Theorem computeMvrvDomain_lower_bound_not_negative (arr : option (list MvrvPoint)) :
  (fst (computeMvrvDomain arr) <? 0)%float = false.
Proof.
  destruct arr as [l|]; [|reflexivity].
  rewrite computeMvrvDomain_fold.
  destruct (fold_left domain_step l (infinity, neg_infinity)) as [mn mx].
  destruct (negb (isFinite mn) || negb (isFinite mx)); [reflexivity|].
  cbn [fst]. by apply Math_max_not_below.
Qed.

(** ** The Fear and Greed refresh *)

(** The levels and titles of the alerts, by tier. *)
Lemma buildAlerts_headlines (state : option DashState) :
  map headline (buildAlerts state)
  = mvrv_tier (known (mvrv_value state)) ++ greed_tier (known (fng_value state)).
Proof.
  destruct state as [[[[mv]|] fg]|]; [| |reflexivity];
    unfold buildAlerts, mvrv_value, fng_value, mvrv_tier, greed_tier, known;
    cbn [state_mvrv current fngValue];
    try destruct mv as [| |b|x|s]; destruct fg as [| |b'|y|s']; cbn [is_number app];
    try reflexivity;
    repeat match goal with
           | |- context [(?a <=? ?b)%float] => destruct (a <=? b)%float
           end; reflexivity.
Qed.

Lemma dashboard_alerts_headlines (d : Dashboard) :
  map headline (dashboard_alerts d)
  = mvrv_tier (known (mv_current (dash_mvrv d))) ++ greed_tier (known (dash_fngValue d)).
Proof. unfold dashboard_alerts. by rewrite buildAlerts_headlines. Qed.

Lemma error_text_not_empty e : error_text e ≠ EmptyString.
Proof. by destruct e as [[[|c s]|]|]. Qed.

(** X14: when the Fear and Greed service gives no number, [refreshFNG] falls
    back to the value 74 with the class Greed, records an error text that is not
    empty, and the render that follows raises the Extreme Greed alert, although
    no reading was received. *)
Theorem refreshFNG_fallback_alert (r : option FngResult) (clock : Z) (d : Dashboard) :
  match r with Some r => is_number (fr_value r) = false | None => True end →
  let d' := refreshFNG r clock d in
  dash_fngValue d' = VNum 74
  ∧ fngClass d' = Some "Greed"
  ∧ fngUpdated d' = Some clock
  ∧ (∃ e, err_fng (errors d') = Some e ∧ e ≠ EmptyString)
  ∧ (MEDIUM, "Extreme Greed") ∈ map headline (dashboard_alerts d').
Proof.
  intros Hr d'.
  assert (Hval : dash_fngValue d' = VNum 74 ∧ fngClass d' = Some "Greed"
                 ∧ fngUpdated d' = Some clock
                 ∧ err_fng (errors d') = Some (error_text (option_map fr_error r))).
  { subst d'. destruct r as [[[] c u e]|]; done. }
  destruct Hval as (Hv & Hc & Hu & He).
  split; [done|]. split; [done|]. split; [done|]. split.
  - eexists. split; [exact He | apply error_text_not_empty].
  - rewrite dashboard_alerts_headlines, Hv. apply list_elem_of_In, in_or_app. right.
    simpl. by left.
Qed.

Lemma refreshFNG_fallback_alert_witness :
  is_number (fr_value fng_failed) = false
  ∧ let d' := refreshFNG (Some fng_failed) 1700000000000 fixture_dashboard in
    dash_fngValue d' = VNum 74
    ∧ fngClass d' = Some "Greed"
    ∧ fngUpdated d' = Some 1700000000000%Z
    ∧ (∃ e, err_fng (errors d') = Some e ∧ e ≠ EmptyString)
    ∧ (MEDIUM, "Extreme Greed") ∈ map headline (dashboard_alerts d').
Proof.
  split; [reflexivity|].
  exact (refreshFNG_fallback_alert (Some fng_failed) 1700000000000 fixture_dashboard
           eq_refl).
Defined.


(** X15: a number received from the Fear and Greed service is stored as it is,
    clears the error, and the render raises the Extreme Greed alert exactly when
    the number is at least 70. *)
Theorem refreshFNG_live_value (r : FngResult) (x : float) (clock : Z) (d : Dashboard) :
  fr_value r = VNum x →
  let d' := refreshFNG (Some r) clock d in
  dash_fngValue d' = VNum x
  ∧ err_fng (errors d') = None
  ∧ ((MEDIUM, "Extreme Greed") ∈ map headline (dashboard_alerts d')
     ↔ (70 <=? x)%float = true).
Proof.
  intros Hx d'.
  assert (Hval : dash_fngValue d' = VNum x ∧ err_fng (errors d') = None
                 ∧ dash_mvrv d' = dash_mvrv d).
  { subst d'. destruct r as [v c u e]. simpl in Hx. by subst v. }
  destruct Hval as (Hv & He & Hm).
  split; [done|]. split; [done|].
  rewrite dashboard_alerts_headlines, Hv. cbn [known greed_tier].
  rewrite list_elem_of_In, in_app_iff.
  assert (Hnot : ¬ In (MEDIUM, "Extreme Greed")
                     (mvrv_tier (known (mv_current (dash_mvrv d'))))).
  { unfold mvrv_tier. destruct (known _) as [y|]; [|by intros []].
    destruct (3.0 <=? y)%float; [by intros [[=]|[]]|].
    destruct (2.5 <=? y)%float; [by intros [[=]|[]] | by intros []]. }
  destruct (70 <=? x)%float; split.
  - done.
  - intros _. right. by left.
  - intros [H|[]]. by destruct (Hnot H).
  - done.
Qed.

Lemma refreshFNG_live_value_witness :
  fr_value fng_live = VNum 80
  ∧ let d' := refreshFNG (Some fng_live) 1700000000000 fixture_dashboard in
    dash_fngValue d' = VNum 80
    ∧ err_fng (errors d') = None
    ∧ ((MEDIUM, "Extreme Greed") ∈ map headline (dashboard_alerts d')
       ↔ (70 <=? 80)%float = true).
Proof.
  split; [reflexivity|].
  exact (refreshFNG_live_value fng_live 80 1700000000000 fixture_dashboard eq_refl).
Defined.


(** ** The MVRV refresh *)

Lemma refreshMVRV_result (r : option MvrvResult) (now : Z)
    (random : nat → float) (seen : nat) (d : Dashboard) :
  ∃ d', refreshMVRV r now random seen d = Returns d'
    ∧ mv_series (dash_mvrv d') ≠ []
    ∧ priceSeries d' = priceSeries d
    ∧ dash_fngValue d' = dash_fngValue d
    ∧ (mv_error (dash_mvrv d') = None
       ↔ ∃ r0 p ps, r = Some r0 ∧ mr_series r0 = Some (p :: ps)
                    ∧ mv_series (dash_mvrv d') = p :: ps
                    ∧ mv_current (dash_mvrv d') = mr_current r0)
    ∧ err_mvrv (errors d') = mv_error (dash_mvrv d').
Proof.
  destruct (mock_mvrv_series_facts now random (Some (Z.of_nat seen)))
    as (mock & Hmock & _ & Hne & _).
  assert (Hcase : (∃ r0 p ps, r = Some r0 ∧ mr_series r0 = Some (p :: ps))
                  ∨ refreshMVRV r now random seen d
                    = Returns (with_mvrv {| mv_current := mock_current mock;
                                 mv_series := mock_series mock; mv_fromProxy := false;
                                 mv_error := Some (error_text (option_map mr_error r)) |}
                                 (Some (error_text (option_map mr_error r))) d)
                    ∧ ¬ (∃ r0 p ps, r = Some r0 ∧ mr_series r0 = Some (p :: ps))).
  { destruct r as [[c [[|p ps]|] f e]|];
      try (right; split; [unfold refreshMVRV; by rewrite Hmock|];
           by intros (r0 & p' & ps' & [= <-] & Hs)).
    left. eauto. }
  destruct Hcase as [(r0 & p & ps & -> & Hs)|[Hret Hnot]].
  - destruct r0 as [c s f e]. simpl in Hs. subst s.
    eexists. split; [reflexivity|]. cbn.
    split; [done|]. split; [done|]. split; [done|]. split; [|done].
    split; [|done]. intros _. by exists {| mr_current := c; mr_series := Some (p :: ps);
                                           mr_fromProxy := f; mr_error := e |}, p, ps.
  - eexists. split; [exact Hret|]. cbn.
    split; [done|]. split; [done|]. split; [done|]. split; [|done].
    split; [intros [=]|]. intros (r0 & p & ps & Hr & Hs & _). destruct Hnot. eauto.
Qed.


(** ** The invariant of the component *)

Lemma initial_dashboard_ok now random : dashboard_ok (initial_dashboard now random).
Proof.
  unfold dashboard_ok, initial_dashboard.
  cbn [priceSeries dash_price dash_fngValue dash_mvrv mv_series mv_current].
  split; [|by auto].
  intros Hnil. apply (f_equal length) in Hnil.
  destruct (mock_price_series_facts now random 180) as [Hlen _].
  rewrite Hlen in Hnil. discriminate.
Qed.

Lemma refreshMVRV_keeps_price r now random seen d d' :
  refreshMVRV r now random seen d = Returns d' → dash_price d' = dash_price d.
Proof.
  unfold refreshMVRV. intros Hret.
  destruct r as [[c [[|p ps]|] f e]|]; simpl in Hret;
    try (destruct (generateMockMVRVSeries now random (Some (Z.of_nat seen)));
         simpl in Hret; try discriminate);
    by injection Hret as <-.
Qed.

Lemma refresh_step_ok d d' : refresh_step d d' → dashboard_ok d → dashboard_ok d'.
Proof.
  intros Hstep (Hps & Hp & Hf & Hm).
  destruct Hstep as [hist d|r d|r clock d|r now random seen d d' Hret].
  - destruct hist as [[|p h]|]; [done| |done]. by unfold dashboard_ok; cbn.
  - destruct r as [[[] c e]|]; unfold dashboard_ok; cbn; auto.
  - destruct r as [[[] c u e]|]; unfold dashboard_ok; cbn; auto.
  - destruct (refreshMVRV_result r now random seen d)
      as (d'' & Hret' & Hne & Hps' & Hf' & _).
    rewrite Hret in Hret'. injection Hret' as <-.
    unfold dashboard_ok. rewrite Hps', Hf', (refreshMVRV_keeps_price _ _ _ _ _ _ Hret).
    split; [done|]. split; [done|]. split; [done|]. done.
Qed.

(** X17: in every state the dashboard can reach from its first render by any
    refresh steps with any results, the price series is not empty, [price] and
    [fngValue] are null or numbers, the MVRV value is null while no MVRV series
    is there, and [mergeSeries] on the two series of the state returns a
    non-empty list for the chart. *)
Theorem dashboard_invariant (now : Z) (random : nat → float) (d : Dashboard) :
  reachable (initial_dashboard now random) d →
  priceSeries d ≠ []
  ∧ (dash_price d = VNull ∨ is_number (dash_price d) = true)
  ∧ (dash_fngValue d = VNull ∨ is_number (dash_fngValue d) = true)
  ∧ (mv_series (dash_mvrv d) = [] → mv_current (dash_mvrv d) = VNull)
  ∧ ∃ merged, mergeSeries (Some (priceSeries d)) (Some (mv_series (dash_mvrv d)))
              = Returns merged ∧ merged ≠ [].
Proof.
  intros Hreach.
  assert (Hok : dashboard_ok d).
  { induction Hreach as [|d d' _ IH Hstep]; [apply initial_dashboard_ok|].
    by eapply refresh_step_ok. }
  destruct Hok as (Hps & Hp & Hf & Hm).
  split; [done|]. split; [done|]. split; [done|]. split; [done|].
  exists (merge_lists (priceSeries d) (mv_series (dash_mvrv d))).
  split; [apply mergeSeries_lists|]. intros Hnil.
  apply merge_lists_nil in Hnil as [Hnil _]. done.
Qed.

Lemma dashboard_invariant_witness :
  reachable (initial_dashboard 1700000000000 steady)
            (refreshFNG None 1700000000000 (initial_dashboard 1700000000000 steady))
  ∧ let d := refreshFNG None 1700000000000 (initial_dashboard 1700000000000 steady) in
    priceSeries d ≠ []
    ∧ (dash_price d = VNull ∨ is_number (dash_price d) = true)
    ∧ (dash_fngValue d = VNull ∨ is_number (dash_fngValue d) = true)
    ∧ (mv_series (dash_mvrv d) = [] → mv_current (dash_mvrv d) = VNull)
    ∧ ∃ merged, mergeSeries (Some (priceSeries d)) (Some (mv_series (dash_mvrv d)))
                = Returns merged ∧ merged ≠ [].
Proof.
  assert (Hreach : reachable (initial_dashboard 1700000000000 steady)
            (refreshFNG None 1700000000000 (initial_dashboard 1700000000000 steady))).
  { eapply reachable_step; [apply reachable_start | apply step_fng]. }
  split; [exact Hreach|].
  exact (dashboard_invariant 1700000000000 steady _ Hreach).
Defined.

(** ** The refresh steps commute *)

(** X18: the three refreshes that [refreshAll] starts together write disjoint
    parts of the state: applying two of them in either order gives the same
    state, so the order in which the requests complete does not matter. *)
Theorem refresh_steps_commute (rp : option PriceResult) (rf : option FngResult)
    (rm : option MvrvResult) (clock now : Z) (random : nat → float) (seen : nat)
    (d : Dashboard) :
  refreshPrice rp (refreshFNG rf clock d) = refreshFNG rf clock (refreshPrice rp d)
  ∧ refreshMVRV rm now random seen (refreshPrice rp d)
    = (let* d' := refreshMVRV rm now random seen d in Returns (refreshPrice rp d'))
  ∧ refreshMVRV rm now random seen (refreshFNG rf clock d)
    = (let* d' := refreshMVRV rm now random seen d in Returns (refreshFNG rf clock d')).
Proof.
  split; [|split].
  - destruct rp as [[[] c e]|], rf as [[[] c' u e']|]; reflexivity.
  - unfold refreshMVRV.
    destruct rm as [[c [[|p ps]|] f e]|];
      try (destruct (generateMockMVRVSeries now random (Some (Z.of_nat seen))); simpl);
      destruct rp as [[[] c' e']|]; reflexivity.
  - unfold refreshMVRV.
    destruct rm as [[c [[|p ps]|] f e]|];
      try (destruct (generateMockMVRVSeries now random (Some (Z.of_nat seen))); simpl);
      destruct rf as [[[] c' u e']|]; reflexivity.
Qed.

(** ** Theme *)

(** X19: the theme the component stores is the theme it restores on the next
    start, whatever the system prefers; with nothing stored a system preference
    for light wins, and when the storage cannot be read the default is kept. *)
Theorem theme_round_trip (darkMode : bool) (prefers_light current : bool) :
  init_theme (Returns (Some (persist_theme darkMode))) prefers_light current = darkMode
  ∧ init_theme (Returns None) prefers_light current
    = (if prefers_light then false else current)
  ∧ init_theme (Throws TypeError) prefers_light current = current.
Proof. by destruct darkMode, prefers_light, current. Qed.

(** ** Loading the body of the active post *)

Lemma string_eqb_eq (a b : string) : String.eqb a b = true ↔ a = b.
Proof. apply String.eqb_eq. Qed.

(** The guard of the effect lets the fetch through when the map has nothing
    truthy under the slug, of its own or inherited. *)
Lemma content_request_Some active posts cm meta :
  content_request active posts cm = Some meta ↔
  active = Some (slug meta) ∧ slug meta ≠ EmptyString
  ∧ List.find (fun p => String.eqb (slug p) (slug meta)) posts = Some meta
  ∧ (property cm (slug meta) = Absent ∨ cm !! slug meta = Some EmptyString).
Proof.
  unfold content_request. split.
  - destruct active as [[|c a]|]; try done. intros Hreq.
    assert (Hfind : List.find (fun p => String.eqb (slug p) (String c a)) posts = Some meta
                    ∧ (property cm (String c a) = Absent
                       ∨ cm !! String c a = Some EmptyString)).
    { unfold property in *.
      destruct (cm !! String c a) as [[|c' s']|]; [by auto|done|].
      destruct (inherited (String c a)); [done|by auto]. }
    destruct Hfind as [Hfind Hcm].
    pose proof Hfind as Hfound. apply find_some in Hfound as [_ Heq].
    apply string_eqb_eq in Heq. rewrite <- Heq in Hfind, Hcm |- *.
    split; [done|]. split; [by rewrite Heq|]. done.
  - intros (-> & Hne & Hfind & Hcm).
    destruct (slug meta) as [|c a] eqn:Hslug; [done|].
    destruct Hcm as [-> | Hown]; [done|].
    unfold property. by rewrite Hown.
Qed.

Lemma content_request_elem_of active posts cm meta :
  content_request active posts cm = Some meta → meta ∈ posts.
Proof.
  intros Hreq. apply content_request_Some in Hreq as (_ & _ & Hfind & _).
  apply find_some in Hfind as [Hin _]. by apply list_elem_of_In.
Qed.

Lemma property_insert_eq cm key txt : property (<[key := txt]> cm) key = Str txt.
Proof. unfold property. by rewrite lookup_insert_eq. Qed.

(** X20: when the effect fetches the body of the active post, the content map
    gets that body (or the not-found text when the response is not ok) under the
    slug of the post and is unchanged elsewhere; afterwards the guard of the
    effect lets a fetch for the same post through exactly when the fetch was
    rejected or the body received was empty: an empty body does not count as
    cached. *)
Theorem content_loader_settles (active : option string) (posts : list Post)
    (cm : gmap string string) (meta : Post) (r : fetched) :
  content_request active posts cm = Some meta →
  let cm' := content_loaded meta r cm in
  meta ∈ posts
  ∧ active = Some (slug meta)
  ∧ (∀ s, s ≠ slug meta → cm' !! s = cm !! s)
  ∧ cm' !! slug meta
    = match r with
      | Body txt => Some txt
      | NotOk => Some not_found_text
      | Rejected => cm !! slug meta
      end
  ∧ (content_request active posts cm' = None
     ↔ r = NotOk ∨ ∃ txt, r = Body txt ∧ txt ≠ EmptyString).
Proof.
  intros Hreq cm'. pose proof (content_request_elem_of _ _ _ _ Hreq) as Hin.
  pose proof Hreq as Hreq0.
  apply content_request_Some in Hreq as (-> & Hne & Hfind & Hcm).
  split; [done|]. split; [done|]. split; [|split].
  - intros s Hs. subst cm'. destruct r; simpl; [| |done]; by rewrite lookup_insert_ne.
  - subst cm'. destruct r; simpl; [| |done]; by rewrite lookup_insert_eq.
  - assert (Hafter : ∀ body,
              content_request (Some (slug meta)) posts (<[slug meta := body]> cm) = None
              ↔ body ≠ EmptyString).
    { intros body. unfold content_request.
      destruct (slug meta) as [|c a] eqn:Hslug; [done|].
      rewrite property_insert_eq, Hfind. by destruct body. }
    subst cm'. destruct r as [txt| |]; cbn [content_loaded].
    + rewrite Hafter. split.
      * intros Htxt. right. eauto.
      * intros [[=] | (txt' & [= <-] & Htxt)]. done.
    + rewrite Hafter. split; [by left | done].
    + rewrite Hreq0. split; [done|]. by intros [[=] | (txt & [=] & _)].
Qed.

Lemma content_loader_settles_witness :
  content_request (Some "ciclos") [fixture_post] ∅ = Some fixture_post
  ∧ let cm' := content_loaded fixture_post (Body "mvrv details") ∅ in
    fixture_post ∈ [fixture_post]
    ∧ Some "ciclos" = Some (slug fixture_post)
    ∧ (∀ s, s ≠ slug fixture_post → cm' !! s = (∅ : gmap string string) !! s)
    ∧ cm' !! slug fixture_post = Some "mvrv details"
    ∧ (content_request (Some "ciclos") [fixture_post] cm' = None
       ↔ Body "mvrv details" = NotOk
         ∨ ∃ txt, Body "mvrv details" = Body txt ∧ txt ≠ EmptyString).
Proof.
  split; [reflexivity|].
  exact (content_loader_settles (Some "ciclos") [fixture_post] ∅ fixture_post
           (Body "mvrv details") eq_refl).
Defined.

(** ** The search and the content map *)

Lemma sublist_filter_impl {A} (f g : A → bool) (l : list A) :
  (∀ x, x ∈ l → f x = true → g x = true) →
  sublist (List.filter f l) (List.filter g l).
Proof.
  induction l as [|x l IH]; intros Himp; simpl; [constructor|].
  assert (IH' : sublist (List.filter f l) (List.filter g l)).
  { apply IH. intros y Hy. apply Himp. by apply list_elem_of_further. }
  destruct (f x) eqn:Hf.
  - rewrite (Himp x (list_elem_of_here _ _) Hf). by constructor.
  - destruct (g x); [by constructor | done].
Qed.

Lemma existsb_false_elem_of {A} (f : A → bool) (l : list A) :
  existsb f l = false ↔ ∀ x, x ∈ l → f x = false.
Proof.
  induction l as [|y l IH]; simpl.
  - split; [|done]. intros _ x Hx. by apply elem_of_nil in Hx.
  - rewrite orb_false_iff, IH. split.
    + intros [Hy Hl] x Hx. apply elem_of_cons in Hx as [-> | Hx]; auto.
    + intros Hall. split; [apply Hall; left|].
      intros x Hx. apply Hall. by right.
Qed.

Section SearchOutcome.
Context {L : Lowercase}.

(** Whether the search raises, and the list it returns when it does not. *)
Lemma searchPosts_outcome posts q contentMap :
  searchPosts posts q contentMap
  = match q with
    | None | Some EmptyString => Returns posts
    | Some s =>
        if existsb (reads_inherited contentMap) posts then Throws TypeError
        else Returns (List.filter (matched (toLowerCase s) contentMap) posts)
    end.
Proof. destruct q as [[|c s]|]; try done. by apply searchPosts_query. Qed.

(** A post that is matched without its body, by title, excerpt or tags or
    because the query is empty, is matched with any body. *)
Lemma matched_without_content query contentMap p :
  reads_inherited contentMap p = false →
  matched query None p = true → matched query contentMap p = true.
Proof.
  intros Hsafe.
  rewrite (matched_with_content query None p EmptyString) by done.
  assert (Hcontent : ∃ content,
            match contentMap with
            | Some cm => cm !! slug p = Some content
                         ∨ (content = EmptyString ∧ property cm (slug p) = Absent)
            | None => content = EmptyString
            end).
  { destruct contentMap as [cm|]; [|by exists EmptyString].
    unfold reads_inherited in Hsafe. unfold property in *.
    destruct (cm !! slug p) as [s|]; [by exists s; left|].
    exists EmptyString. right. by destruct (inherited (slug p)). }
  destruct Hcontent as [content Hcontent].
  rewrite (matched_with_content query contentMap p content Hcontent).
  rewrite toLowerCase_empty, !orb_true_iff.
  intros [Hmeta|Hc]; [by left|].
  apply empty_includes in Hc. subst query. right. apply includes_empty.
Qed.

Lemma matched_content_grows query (cm cm' : gmap string string) p :
  cm ⊆ cm' →
  reads_inherited (Some cm') p = false →
  matched query (Some cm) p = true → matched query (Some cm') p = true.
Proof.
  intros Hsub Hsafe.
  destruct (cm !! slug p) as [s|] eqn:Hs.
  - rewrite (matched_with_content query (Some cm) p s) by by left.
    rewrite (matched_with_content query (Some cm') p s); [done|].
    left. by eapply lookup_weaken.
  - intros Hmatch. apply matched_without_content; [done|].
    rewrite (matched_with_content query None p EmptyString) by done.
    destruct (property cm (slug p)) as [s| |] eqn:Hp.
    + unfold property in Hp. rewrite Hs in Hp. by destruct (inherited (slug p)).
    + unfold matched, post_matches in Hmatch. by rewrite Hp in Hmatch.
    + by rewrite (matched_with_content query (Some cm) p EmptyString) in Hmatch
        by by right.
Qed.

Lemma reads_inherited_shrinks (cm cm' : gmap string string) p :
  cm ⊆ cm' → reads_inherited (Some cm') p = true → reads_inherited (Some cm) p = true.
Proof.
  intros Hsub. rewrite !reads_inherited_iff.
  intros (cm0 & [= <-] & Hnone & Hinh). exists cm. split; [done|]. split; [|done].
  destruct (cm !! slug p) as [s|] eqn:Hs; [|done].
  by rewrite (lookup_weaken _ _ _ _ Hs Hsub) in Hnone.
Qed.

(** X29: [searchPosts] raises a TypeError exactly when the query is not empty,
    the content map is there, and some post has no body of its own in the map
    under a slug that names a member of Object.prototype; in every other case it
    returns. *)
Theorem searchPosts_raises_exactly (posts : list Post) (q : option string)
    (contentMap : option (gmap string string)) :
  (searchPosts posts q contentMap = Throws TypeError
   ↔ ∃ s cm p, q = Some s ∧ s ≠ EmptyString ∧ contentMap = Some cm ∧ p ∈ posts
               ∧ cm !! slug p = None ∧ inherited (slug p) = true)
  ∧ searchPosts posts q contentMap ≠ OutOfFuel.
Proof.
  rewrite searchPosts_outcome. destruct q as [[|c s]|].
  - split; [|done]. split; [done|]. by intros (s & cm & p & [= <-] & Hs & _).
  - destruct (existsb (reads_inherited contentMap) posts) eqn:Hraises.
    + split; [|done]. split; [|done]. intros _.
      apply existsb_exists in Hraises as (p & Hin & Hp).
      apply reads_inherited_iff in Hp as (cm & -> & Hnone & Hinh).
      exists (String c s), cm, p. by rewrite list_elem_of_In.
    + split; [|done]. split; [done|].
      intros (s' & cm & p & _ & _ & -> & Hin & Hnone & Hinh).
      rewrite existsb_false_elem_of in Hraises.
      specialize (Hraises p Hin).
      assert (reads_inherited (Some cm) p = true) by (apply reads_inherited_iff; eauto).
      congruence.
  - split; [|done]. split; [done|]. by intros (s & cm & p & [=] & _).
Qed.

(** X30: whenever [searchPosts] returns, the result is a subsequence of the
    input, without duplicates when the input has none; it is the input itself
    for an absent or empty query, and otherwise holds exactly the posts whose
    lowercased title, excerpt, tags or loaded body contain the lowercased query,
    whatever [toLowerCase] does to text. *)
Theorem searchPosts_filters_when_it_returns (posts : list Post) (q : option string)
    (contentMap : option (gmap string string)) (found : list Post) :
  searchPosts posts q contentMap = Returns found →
  sublist found posts
  ∧ (NoDup posts → NoDup found)
  ∧ match q with
    | None | Some EmptyString => found = posts
    | Some s => ∀ p, p ∈ found ↔ p ∈ posts ∧ spec_matches s contentMap p
    end.
Proof.
  rewrite searchPosts_outcome. destruct q as [[|c s]|].
  - by intros [= <-].
  - destruct (existsb (reads_inherited contentMap) posts) eqn:Hraises; [done|].
    intros [= <-]. rewrite existsb_false_elem_of in Hraises.
    split; [apply sublist_List_filter|].
    split; [intros Hnd; eapply sublist_NoDup; [exact Hnd | apply sublist_List_filter]|].
    intros p. rewrite elem_of_List_filter. split.
    + intros [Hin Hp]. split; [done|]. by apply matched_spec; [apply Hraises|].
    + intros [Hin Hp]. split; [done|]. by apply matched_spec; [apply Hraises|].
  - by intros [= <-].
Qed.

(** X22: loading more bodies never hides a result and never makes the search
    raise: when the search returns with a content map, it returns with an absent
    map and with any larger map, and the three results are subsequences of each
    other in that order. *)
Theorem searchPosts_grows_with_content (posts : list Post) (q : option string)
    (cm cm' : gmap string string) (found : list Post) :
  cm ⊆ cm' →
  searchPosts posts q (Some cm) = Returns found →
  ∃ found0 found',
    searchPosts posts q None = Returns found0
    ∧ searchPosts posts q (Some cm') = Returns found'
    ∧ sublist found0 found
    ∧ sublist found found'.
Proof.
  intros Hsub. rewrite !searchPosts_outcome. destruct q as [[|c s]|].
  - intros [= <-]. by exists posts, posts.
  - cbn [existsb reads_inherited].
    destruct (existsb (reads_inherited (Some cm)) posts) eqn:Hraises; [done|].
    intros [= <-]. rewrite existsb_false_elem_of in Hraises.
    assert (Hraises' : existsb (reads_inherited (Some cm')) posts = false).
    { apply existsb_false_elem_of. intros p Hin.
      destruct (reads_inherited (Some cm') p) eqn:Hp; [|done].
      apply (reads_inherited_shrinks cm cm' p Hsub) in Hp.
      by rewrite (Hraises p Hin) in Hp. }
    rewrite Hraises'. rewrite existsb_false_elem_of in Hraises'.
    assert (Hnone : existsb (reads_inherited None) posts = false).
    { by apply existsb_false_elem_of. }
    rewrite Hnone. eexists. eexists. split; [reflexivity|]. split; [reflexivity|].
    split; apply sublist_filter_impl; intros p Hin.
    + apply matched_without_content. by apply Hraises.
    + apply matched_content_grows; [done|]. by apply Hraises'.
  - intros [= <-]. by exists posts, posts.
Qed.

End SearchOutcome.

Lemma searchPosts_filters_when_it_returns_witness :
  @searchPosts ascii_lowercase [fixture_post] (Some "mvrv") (Some fixture_content)
  = Returns [fixture_post]
  ∧ sublist [fixture_post] [fixture_post]
  ∧ (NoDup [fixture_post] → NoDup [fixture_post])
  ∧ ∀ p, p ∈ [fixture_post]
         ↔ p ∈ [fixture_post]
           ∧ @spec_matches ascii_lowercase "mvrv" (Some fixture_content) p.
Proof.
  split; [reflexivity|].
  exact (@searchPosts_filters_when_it_returns ascii_lowercase [fixture_post]
           (Some "mvrv") (Some fixture_content) [fixture_post] eq_refl).
Defined.

Lemma searchPosts_grows_with_content_witness :
  (∅ : gmap string string) ⊆ fixture_content
  ∧ @searchPosts ascii_lowercase [fixture_post] (Some "mvrv") (Some ∅) = Returns []
  ∧ ∃ found0 found',
      @searchPosts ascii_lowercase [fixture_post] (Some "mvrv") None = Returns found0
      ∧ @searchPosts ascii_lowercase [fixture_post] (Some "mvrv") (Some fixture_content)
        = Returns found'
      ∧ sublist found0 []
      ∧ sublist [] found'.
Proof.
  assert (Hsub : (∅ : gmap string string) ⊆ fixture_content) by apply map_empty_subseteq.
  split; [exact Hsub|]. split; [reflexivity|].
  exact (@searchPosts_grows_with_content ascii_lowercase [fixture_post] (Some "mvrv")
           ∅ fixture_content [] Hsub eq_refl).
Defined.

(** ** Text the renderer leaves alone *)


Lemma prefix_cons_ne a q c s : a ≠ c → String.prefix (String a q) (String c s) = false.
Proof. intros Hne. cbn [String.prefix]. by destruct (ascii_dec a c). Qed.



Lemma not_markup c :
  markup_char c = false →
  "#"%char ≠ c ∧ "*"%char ≠ c ∧ "`"%char ≠ c ∧ "["%char ≠ c.
Proof.
  unfold markup_char. rewrite !orb_false_iff, !Ascii.eqb_neq.
  intros (((H1 & H2) & H3) & H4). repeat split; congruence.
Qed.

(** Where no line terminator starts, no line feed stands. *)
Lemma no_terminator_no_LF c s : line_terminator (String c s) = 0 → LF ≠ c.
Proof.
  intros Hterm Heq. subst c. by vm_compute in Hterm.
Qed.

Lemma no_markup_cons c s :
  no_markup (String c s) = true
  ↔ markup_char c = false ∧ line_terminator (String c s) = 0 ∧ no_markup s = true.
Proof.
  cbn [no_markup]. rewrite !andb_true_iff, negb_true_iff, Nat.eqb_eq. tauto.
Qed.

(** A rule that cannot start at a plain character changes nothing in plain
    text. *)
Lemma replace_from_plain (rx : matcher) :
  (∀ b c s, markup_char c = false → line_terminator (String c s) = 0 →
            rx b (String c s) = None) →
  ∀ s b, no_markup s = true → replace_from rx b 0 0 s = s.
Proof.
  intros Hrx. induction s as [|c s IH]; intros b Hs; [done|].
  apply no_markup_cons in Hs as (Hc & Hterm & Hs).
  cbn [replace_from]. rewrite Hterm, (Hrx b c s Hc Hterm). cbn [Nat.eqb Nat.pred].
  f_equal. by apply IH.
Qed.

(** All of a text of one line is the rest of its line. *)
Lemma rest_of_line_cons c s :
  rest_of_line (String c s) = String c s
  ↔ line_terminator (String c s) = 0 ∧ rest_of_line s = s.
Proof.
  cbn [rest_of_line]. destruct (line_terminator (String c s)) as [|k] eqn:Hterm.
  - cbn [Nat.ltb Nat.leb]. split; [by intros [= ->]|]. by intros [_ ->].
  - cbn [Nat.ltb Nat.leb]. split; [done|]. by intros [[=] _].
Qed.

Lemma rest_of_line_plain s : no_markup s = true → rest_of_line s = s.
Proof.
  induction s as [|c s IH]; intros Hs; [done|].
  apply no_markup_cons in Hs as (_ & Hterm & Hs). apply rest_of_line_cons. auto.
Qed.

(** A rule anchored at the start of a line cannot start inside a line. *)
Lemma replace_from_inside_line (marker open_ close_ : string) s :
  rest_of_line s = s →
  replace_from (line_rule marker open_ close_) false 0 0 s = s.
Proof.
  induction s as [|c s IH]; intros Hs; [done|].
  apply rest_of_line_cons in Hs as [Hterm Hs].
  cbn [replace_from]. unfold line_rule at 1. cbn [andb].
  rewrite Hterm. cbn [Nat.eqb Nat.pred]. f_equal. by apply IH.
Qed.

(** A rule anchored at the start of a line misses a text of one line that
    does not start with its marker. *)
Lemma line_rule_misses (marker open_ close_ s : string) :
  rest_of_line s = s →
  String.prefix marker s = false →
  replace (line_rule marker open_ close_) s = s.
Proof.
  intros Hs Hq. destruct s as [|c s]; [done|].
  apply rest_of_line_cons in Hs as [Hterm Hs].
  unfold replace. cbn [replace_from]. unfold line_rule at 1. cbn [andb].
  rewrite Hq, Hterm. cbn [Nat.eqb Nat.pred]. f_equal.
  by apply replace_from_inside_line.
Qed.

Lemma line_rule_plain (c0 : ascii) (marker open_ close_ : string) :
  markup_char c0 = true →
  ∀ b c s, markup_char c = false → line_terminator (String c s) = 0 →
    line_rule (String c0 marker) open_ close_ b (String c s) = None.
Proof.
  intros Hc0 b c s Hc _. unfold line_rule.
  rewrite prefix_cons_ne; [by rewrite andb_false_r|]. intros ->. congruence.
Qed.

Lemma span_rule_plain (c0 : ascii) (open_ close_ before after : string) :
  markup_char c0 = true →
  ∀ b c s, markup_char c = false → line_terminator (String c s) = 0 →
    span_rule (String c0 open_) close_ before after b (String c s) = None.
Proof.
  intros Hc0 b c s Hc _. unfold span_rule.
  rewrite prefix_cons_ne; [done|]. intros ->. congruence.
Qed.

Lemma rx_code_plain b c s :
  markup_char c = false → line_terminator (String c s) = 0 →
  rx_code b (String c s) = None.
Proof.
  intros Hc _. apply not_markup in Hc as (_ & _ & Hc & _).
  unfold rx_code. destruct c as [[] [] [] [] [] [] [] []]; done.
Qed.

Lemma rx_item_plain b c s :
  markup_char c = false → line_terminator (String c s) = 0 →
  rx_item b (String c s) = None.
Proof.
  intros _ Hterm. apply no_terminator_no_LF in Hterm.
  unfold rx_item. by rewrite prefix_cons_ne.
Qed.

Lemma rx_break_plain b c s :
  markup_char c = false → line_terminator (String c s) = 0 →
  rx_break b (String c s) = None.
Proof.
  intros _ Hterm. apply no_terminator_no_LF in Hterm.
  unfold rx_break. by rewrite prefix_cons_ne.
Qed.

Lemma rx_link_plain b c s :
  markup_char c = false → line_terminator (String c s) = 0 →
  rx_link b (String c s) = None.
Proof.
  intros Hc _. apply not_markup in Hc as (_ & _ & _ & Hc).
  unfold rx_link. destruct c as [[] [] [] [] [] [] [] []]; done.
Qed.

(** The quote rule is the one rule that starts at a plain character; in
    text of one line it can only match at the very start. *)
Lemma rx_quote_plain s :
  no_markup s = true → String.prefix "> " s = false → replace rx_quote s = s.
Proof.
  intros Hs Hq. apply line_rule_misses; [by apply rest_of_line_plain | done].
Qed.

(** The rules after the quote rule, on plain text. *)
Lemma inline_rules_plain s :
  no_markup s = true →
  replace rx_link (replace rx_break (replace rx_item (replace rx_code
    (replace rx_italic (replace rx_bold s))))) = s.
Proof.
  intros Hs. unfold replace.
  rewrite (replace_from_plain rx_bold) by (done || by apply span_rule_plain).
  rewrite (replace_from_plain rx_italic) by (done || by apply span_rule_plain).
  rewrite (replace_from_plain rx_code) by (done || apply rx_code_plain).
  rewrite (replace_from_plain rx_item) by (done || apply rx_item_plain).
  rewrite (replace_from_plain rx_break) by (done || apply rx_break_plain).
  by rewrite (replace_from_plain rx_link) by (done || apply rx_link_plain).
Qed.

Lemma heading_rules_plain s :
  no_markup s = true →
  replace rx_h1 (replace rx_h2 (replace rx_h3 s)) = s.
Proof.
  intros Hs. unfold replace.
  rewrite (replace_from_plain rx_h3) by (done || by apply line_rule_plain).
  rewrite (replace_from_plain rx_h2) by (done || by apply line_rule_plain).
  by rewrite (replace_from_plain rx_h1) by (done || by apply line_rule_plain).
Qed.

Lemma Markdown_plain s :
  no_markup s = true → String.prefix "> " s = false → Markdown s = s.
Proof.
  intros Hs Hq. unfold Markdown. cbv zeta.
  rewrite (heading_rules_plain s Hs), (rx_quote_plain s Hs Hq).
  by apply inline_rules_plain.
Qed.

(** X25: text that holds no hash, star, backtick or opening bracket and no line
    terminator (LF, CR, U+2028, U+2029), and does not start with the quote
    marker, is returned by [Markdown] unchanged; in particular HTML in the text
    is passed on as it is, unescaped. *)
Theorem Markdown_plain_text (text : string) :
  no_markup text = true →
  String.prefix "> " text = false →
  Markdown text = text.
Proof. apply Markdown_plain. Qed.

Lemma Markdown_plain_text_witness :
  no_markup "<b>Leitura</b> de ciclos — 2025" = true
  ∧ String.prefix "> " "<b>Leitura</b> de ciclos — 2025" = false
  ∧ Markdown "<b>Leitura</b> de ciclos — 2025" = "<b>Leitura</b> de ciclos — 2025".
Proof.
  split; [reflexivity|]. split; [reflexivity|].
  exact (Markdown_plain_text "<b>Leitura</b> de ciclos — 2025" eq_refl eq_refl).
Defined.

(** ** A line that is a heading or a quote *)














(** ** A failed MVRV request *)

(** X27: the message of a failed MVRV request never reaches the state: when
    [fetchMVRV] fails it answers with a mock series of 180 points beside the
    message, and [refreshMVRV] takes that series for a received one and clears
    the error. Whatever [fetchMVRV] resolves to, the error the dashboard holds
    afterwards is null or the text fetch error. *)
Theorem fetchMVRV_error_never_shown (attempt : option (value * list MvrvPoint))
    (msg : string) (now now' : Z) (random random' : nat → float) (seen : nat)
    (d : Dashboard) :
  ∃ r d', fetchMVRV attempt msg now random = Returns r
    ∧ refreshMVRV (Some r) now' random' seen d = Returns d'
    ∧ (mv_error (dash_mvrv d') = None ∨ mv_error (dash_mvrv d') = Some "fetch error")
    ∧ err_mvrv (errors d') = mv_error (dash_mvrv d')
    ∧ (attempt = None →
       mr_error r = Some msg
       ∧ mv_error (dash_mvrv d') = None
       ∧ mv_fromProxy (dash_mvrv d') = false
       ∧ length (mv_series (dash_mvrv d')) = 180).
Proof.
  destruct attempt as [[j_current [|p points]]|]; cbn [fetchMVRV].
  - destruct (generateMockMVRVSeries_returns now' random' (Some (Z.of_nat seen)))
      as (mock & Hmock & _).
    eexists. eexists. split; [reflexivity|]. cbn [refreshMVRV].
    rewrite Hmock. cbn [bind]. split; [reflexivity|]. cbn.
    split; [by right|]. split; [reflexivity|]. intros [=].
  - eexists. eexists. split; [reflexivity|]. cbn [refreshMVRV].
    split; [reflexivity|]. cbn.
    split; [by left|]. split; [reflexivity|]. intros [=].
  - destruct (mock_mvrv_series_facts now random None) as (mock & Hmock & Hlen & Hne & _).
    rewrite Hmock. cbn [bind].
    destruct mock as [current [|p points]]; [done|]. cbn [mock_series mock_current] in *.
    eexists. eexists. split; [reflexivity|].
    cbn [refreshMVRV]. split; [reflexivity|]. cbn.
    split; [by left|]. split; [reflexivity|]. intros _.
    split; [reflexivity|]. split; [reflexivity|]. split; [reflexivity|]. exact Hlen.
Qed.

(** ** The page of the active post *)



(** ** A post whose slug names a member of [Object.prototype] *)

(** X31: a post whose slug names a member of Object.prototype can never be
    shown: with no body of its own in the map the effect takes the inherited
    member for a cached body and never fetches, the page hands that member to
    [Markdown], and the render raises a TypeError. *)
Theorem inherited_slug_page_raises (posts : list Post) (cm : gmap string string)
    (meta : Post) :
  List.find (fun p => String.eqb (slug p) (slug meta)) posts = Some meta →
  inherited (slug meta) = true →
  cm !! slug meta = None →
  content_request (Some (slug meta)) posts cm = None
  ∧ activeContent (Some (slug meta)) posts cm = Builtin
  ∧ render_page (activeContent (Some (slug meta)) posts cm) = Throws TypeError.
Proof.
  intros Hfind Hinh Hnone.
  assert (Hprop : property cm (slug meta) = Builtin) by by apply property_Builtin.
  assert (Hactive : activeContent (Some (slug meta)) posts cm = Builtin).
  { unfold activeContent. destruct (slug meta) as [|c a] eqn:Hslug; [done|].
    by rewrite Hfind, Hslug, Hprop. }
  split; [|by rewrite Hactive].
  unfold content_request. destruct (slug meta) as [|c a] eqn:Hslug; [done|].
  by rewrite Hprop.
Qed.

Lemma inherited_slug_page_raises_witness :
  List.find (fun p => String.eqb (slug p) (slug constructor_post))
            [fixture_post; constructor_post] = Some constructor_post
  ∧ inherited (slug constructor_post) = true
  ∧ fixture_content !! slug constructor_post = None
  ∧ content_request (Some (slug constructor_post)) [fixture_post; constructor_post]
      fixture_content = None
  ∧ activeContent (Some (slug constructor_post)) [fixture_post; constructor_post]
      fixture_content = Builtin
  ∧ render_page (activeContent (Some (slug constructor_post))
                   [fixture_post; constructor_post] fixture_content)
    = Throws TypeError.
Proof.
  split; [reflexivity|]. split; [reflexivity|]. split; [reflexivity|].
  exact (inherited_slug_page_raises [fixture_post; constructor_post] fixture_content
           constructor_post eq_refl eq_refl eq_refl).
Defined.
